(** * trpc2openapi: the router-to-OpenAPI translation, embedded and verified

    A shallow embedding of [packages/trpc2openapi/src/index.ts]:
    - [PROCEDURE_TYPE_HTTP_METHOD_MAP], [getPathsForProcedure], [isProcedure],
      [getPathsForRouterRecord] and [trpc2OpenApi], each a Rocq function
      named after the TypeScript function it embeds;
    - zod is an external library: the schema type and [z.toJSONSchema] are
      section variables;
    - JavaScript objects with computed keys ([PathsObject], a path item, a
      [content] record) are association lists in property order, written
      with [Obj.assign] exactly as the walker does;
    - a JavaScript [TypeError] is a value of the [completion] type;
    - [Module Store] holds the same functions over a store of objects, to
      say which objects they write. *)

From Stdlib Require Import List String Ascii Bool Arith Lia Permutation.
Import ListNotations.
Local Open Scope string_scope.
Local Open Scope list_scope.

Set Implicit Arguments.
Set Warnings "-register-all".

(** ** JavaScript completions: a value, or a thrown exception *)

Inductive exception : Type :=
| TypeError (message : string).

Inductive completion (A : Type) : Type :=
| Return (a : A)
| Throw (e : exception).

Arguments Return {A} a.
Arguments Throw {A} e.

Definition bind {A B : Type} (c : completion A) (k : A -> completion B)
  : completion B :=
  match c with
  | Return a => k a
  | Throw e => Throw e
  end.

Notation "x <- c ;; k" := (bind c (fun x => k))
  (at level 61, c at next level, right associativity).

(** ** Plain objects as property lists *)

Module Obj.

(** An object whose keys are computed strings: its own enumerable
    properties, in property order.  No key occurs twice in an object
    built by [set] from the empty object.  JavaScript lists keys that
    are array indices first; a route holds a slash and a method name a
    letter, so the keys the translation writes stay in insertion order. *)
Definition t (V : Type) : Type := list (string * V).

(** [o[k]]: [None] stands for [undefined]. *)
Fixpoint get {V : Type} (o : t V) (k : string) : option V :=
  match o with
  | [] => None
  | (k', v) :: o' => if String.eqb k' k then Some v else get o' k
  end.

(** [o[k] = v]: an existing property keeps its place and takes the new
    value, a new property goes last. *)
Fixpoint set {V : Type} (o : t V) (k : string) (v : V) : t V :=
  match o with
  | [] => [(k, v)]
  | (k', v') :: o' =>
      if String.eqb k' k then (k', v) :: o' else (k', v') :: set o' k v
  end.

(** [Object.assign(target, source)]: every property of [source], in
    order, is set on [target]. *)
Definition assign {V : Type} (target source : t V) : t V :=
  fold_left (fun o kv => set o (fst kv) (snd kv)) source target.

Definition keys {V : Type} (o : t V) : list string := map fst o.

End Obj.

(** ** The procedure tree (lines 5-16) *)

Inductive ProcedureType : Type := query | mutation | subscription.

Section Translation.

(** zod's schema objects, the JSON Schema documents [z.toJSONSchema]
    returns, and the conversion itself. *)
Variable ZodType : Type.
Variable JSONSchema : Type.
Variable toJSONSchema : ZodType -> JSONSchema.

(** [AnyProcedure['_def']]; the field [procedure] has the literal type
    [true].  A procedure is the object tRPC builds: besides [_def] it has
    the own property [procedure], set to [true] as well, and no property
    [type] ([member] below). *)
Record ProcedureDef : Type := {
  type : ProcedureType;
  inputs : list ZodType;
  output : option ZodType
}.

Record AnyProcedure : Type := { _def : ProcedureDef }.

(** [RouterRecord]: each property is a procedure or a nested record.
    [Object_entries] lists the properties as [Object.entries] does: the
    list is in that order (names that are array indices first, ascending,
    then the others as they were inserted). *)
Inductive RouterRecord : Type :=
| Entries (entries : list (string * (AnyProcedure + RouterRecord))).

Definition RouterEntry : Type := (AnyProcedure + RouterRecord)%type.

Definition Object_entries (r : RouterRecord) : list (string * RouterEntry) :=
  match r with Entries l => l end.

(** ** OpenAPI 3.1 objects, with the fields the translation sets *)

Inductive SchemaObject : Type :=
| OfJSONSchema (j : JSONSchema)
| Schema (type_ : string) (properties : Obj.t SchemaObject)
         (required_ : list string).

Record MediaTypeObject : Type := { schema : SchemaObject }.

Record ParameterObject : Type := {
  name : string;
  in_ : string;
  param_content : Obj.t MediaTypeObject
}.

Record RequestBodyObject : Type := {
  required : bool;
  body_content : Obj.t MediaTypeObject
}.

Record ResponseObject : Type := {
  description : string;
  content : option (Obj.t MediaTypeObject)
}.

Record OperationObject : Type := {
  operationId : string;
  parameters : option (list ParameterObject);
  requestBody : option RequestBodyObject;
  responses : option (Obj.t ResponseObject)
}.

Definition PathItemObject : Type := Obj.t OperationObject.
Definition PathsObject : Type := Obj.t PathItemObject.

(** Assignments to the properties of [operation]. *)
Definition set_parameters (o : OperationObject) (ps : list ParameterObject) :=
  {| operationId := operationId o; parameters := Some ps;
     requestBody := requestBody o; responses := responses o |}.

Definition set_requestBody (o : OperationObject) (b : RequestBodyObject) :=
  {| operationId := operationId o; parameters := parameters o;
     requestBody := Some b; responses := responses o |}.

Definition set_responses (o : OperationObject) (r : Obj.t ResponseObject) :=
  {| operationId := operationId o; parameters := parameters o;
     requestBody := requestBody o; responses := Some r |}.

(** ** Lines 18-22 *)

Definition PROCEDURE_TYPE_HTTP_METHOD_MAP (t : ProcedureType) : option string :=
  match t with
  | query => Some "get"
  | mutation => Some "post"
  | subscription => None
  end.

(** ** Lines 112-201: one procedure *)

(** [`${basePath}/${procedureName}`] *)
Definition route (basePath procedureName : string) : string :=
  (basePath ++ "/" ++ procedureName)%string.

(** Lines 136-140. *)
Definition jsonContent (s : SchemaObject) : Obj.t MediaTypeObject :=
  [("application/json", {| schema := s |})].

(** Lines 163-175: tRPC's response envelope. *)
Definition responseSchema (outputJsonSchema : JSONSchema) : SchemaObject :=
  Schema "object"
    [("result",
      Schema "object" [("data", OfJSONSchema outputJsonSchema)] ["data"])]
    ["result"].

(** Lines 128-194: the operation, for a method that is not null. *)
Definition buildOperation (method procedureName : string) (def : ProcedureDef)
  : OperationObject :=
  let operation :=
    {| operationId := procedureName; parameters := None;
       requestBody := None; responses := None |} in
  let operation :=
    match hd_error (inputs def) with
    | Some input0 =>
        let jsonSchema := toJSONSchema input0 in
        let content := jsonContent (OfJSONSchema jsonSchema) in
        if String.eqb method "get" then
          set_parameters operation
            [{| name := "input"; in_ := "query"; param_content := content |}]
        else
          set_requestBody operation
            {| required := true; body_content := content |}
    | None => operation
    end in
  match output def with
  | Some out =>
      let outputJsonSchema := toJSONSchema out in
      set_responses operation
        [("200", {| description := "Successful response";
                    content := Some (jsonContent (responseSchema outputJsonSchema)) |})]
  | None =>
      set_responses operation
        [("200", {| description := "Successful response"; content := None |})]
  end.

Definition getPathsForProcedure
  (basePath procedureName : string) (procedure : AnyProcedure) : PathsObject :=
  let def := _def procedure in
  match PROCEDURE_TYPE_HTTP_METHOD_MAP (type def) with
  | None => []
  | Some method =>
      [(route basePath procedureName,
        [(method, buildOperation method procedureName def)])]
  end.

(** ** Lines 203-209: the type guard

    [(maybeProcedure as AnyProcedure)._def.procedure === true] reads two
    properties in a row.  [value] holds what these reads can meet and
    [member] is the property read [v.k], which throws on [undefined]. *)

Inductive value : Type :=
| undefined
| boolean (b : bool)
| procedureValue (p : AnyProcedure)
| defValue (d : ProcedureDef)
| recordValue (r : RouterRecord)
| otherValue.   (* a string, an array, a zod schema *)

Definition entryValue (e : RouterEntry) : value :=
  match e with
  | inl p => procedureValue p
  | inr r => recordValue r
  end.

Definition member (v : value) (k : string) : completion value :=
  match v with
  | undefined =>
      Throw (TypeError ("Cannot read properties of undefined (reading '"
                          ++ k ++ "')")%string)
  | procedureValue p =>
      Return (if String.eqb k "_def" then defValue (_def p)
              else if String.eqb k "procedure" then boolean true
              else undefined)
  | defValue d =>
      Return (if String.eqb k "procedure" then boolean true
              else if String.eqb k "type" then otherValue
              else if String.eqb k "inputs" then otherValue
              else if String.eqb k "output" then
                     match output d with
                     | Some _ => otherValue
                     | None => undefined
                     end
              else undefined)
  | recordValue r =>
      Return (match Obj.get (Object_entries r) k with
              | Some e => entryValue e
              | None => undefined
              end)
  | boolean _ | otherValue =>
      (* no property the guard reads: it never gets here *)
      Return undefined
  end.

(** [v === true] *)
Definition strictEqualsTrue (v : value) : bool :=
  match v with
  | boolean true => true
  | _ => false
  end.

Definition isProcedure (maybeProcedure : RouterEntry) : completion bool :=
  def <- member (entryValue maybeProcedure) "_def" ;;
  flag <- member def "procedure" ;;
  Return (strictEqualsTrue flag).

(** Lines 121-126 on a record the guard has taken for a procedure:
    [procedure._def] is then an entry of the record, a procedure object
    or a record, so [def.type] is [undefined] or an object, the method
    map has nothing for it and the function returns the empty object. *)
Definition getPathsForProcedureOnRecord (record : RouterRecord)
  : completion PathsObject :=
  def <- member (recordValue record) "_def" ;;
  _ <- member def "type" ;;
  Return [].

(** ** Lines 79-107: the walk over a router record

    [loop] is the [for ... of Object.entries(routerRecord)] loop with the
    accumulator [paths]; a throw inside the loop body leaves the loop.
    The guard answers [true] on a record whose [_def] is a procedure:
    [getPathsForProcedure] is then called on the record.  It never
    answers [false] on a procedure ([isProcedure_inl]). *)

Fixpoint getPathsForRouterRecord
  (basePath : string) (routerRecord : RouterRecord) {struct routerRecord}
  : completion PathsObject :=
  match routerRecord with
  | Entries entries =>
      (fix loop (entries : list (string * RouterEntry)) (paths : PathsObject)
         {struct entries} : completion PathsObject :=
         match entries with
         | [] => Return paths
         | (procedureName, procedureOrRouterRecord) :: rest =>
             guard <- isProcedure procedureOrRouterRecord ;;
             source <-
               match guard, procedureOrRouterRecord with
               | true, inl procedure =>
                   Return (getPathsForProcedure basePath procedureName procedure)
               | true, inr record => getPathsForProcedureOnRecord record
               | false, inr nested =>
                   getPathsForRouterRecord basePath nested
               | false, inl _ =>
                   Throw (TypeError "a procedure the guard refuses")
               end ;;
             loop rest (Obj.assign paths source)
         end) entries []
  end.

(** ** Lines 56-74: the document *)

Record AnyTRPCRouter : Type := {
  procedures : RouterRecord   (* [router._def.procedures as RouterRecord] *)
}.

Record Options : Type := {
  apiTitle : string;
  apiVersion : string;
  basePath : string;
  router : AnyTRPCRouter
}.

Record InfoObject : Type := { title : string; version : string }.

(** [OpenAPIV3_1.Document]: the four properties the translation writes
    and the optional ones of the type, absent ([None]) when not written. *)
Record Document : Type := {
  openapi : string;
  info : InfoObject;
  paths : PathsObject;
  components : Obj.t (Obj.t SchemaObject);
  jsonSchemaDialect : option string;
  servers : option (list string);
  webhooks : option PathsObject;
  security : option (list (Obj.t (list string)));
  tags : option (list string);
  externalDocs : option string
}.

Definition trpc2OpenApi (options : Options) : completion Document :=
  paths <- getPathsForRouterRecord (basePath options)
             (procedures (router options)) ;;
  Return {| openapi := "3.1.0";
            info := {| title := apiTitle options;
                       version := apiVersion options |};
            paths := paths;
            components := [];
            jsonSchemaDialect := None; servers := None; webhooks := None;
            security := None; tags := None; externalDocs := None |}.

End Translation.

(** ** The shape of a procedure tree *)

Section Tree.

Variable ZodType : Type.

(** The record has a property [_def] that is a procedure: the guard
    takes such a record for a procedure. *)
Definition mistaken (r : RouterRecord ZodType) : bool :=
  match Obj.get (Object_entries r) "_def" with
  | Some (inl _) => true
  | _ => false
  end.

(** The procedures of a tree in the order the walk meets them, each with
    the name of its own property; the walk does not enter a record the
    guard takes for a procedure. *)
Fixpoint leaves (r : RouterRecord ZodType)
  : list (string * AnyProcedure ZodType) :=
  match r with
  | Entries entries =>
      flat_map (fun kv =>
                  match snd kv with
                  | inl procedure => [(fst kv, procedure)]
                  | inr nested => if mistaken nested then [] else leaves nested
                  end) entries
  end.

(** The one-level record that declares the given procedures. *)
Definition flat (l : list (string * AnyProcedure ZodType))
  : RouterRecord ZodType :=
  Entries (map (fun np => (fst np, inl (snd np))) l).

(** The record has a property [_def]. *)
Definition hasDef (r : RouterRecord ZodType) : bool :=
  match Obj.get (Object_entries r) "_def" with
  | Some _ => true
  | None => false
  end.

(** Every record the walk meets below the root has a property [_def];
    nothing is asked of the root, nor of what lies inside a record the
    guard takes for a procedure. *)
Fixpoint discriminable (r : RouterRecord ZodType) : bool :=
  match r with
  | Entries entries =>
      forallb (fun kv =>
                 match snd kv with
                 | inl _ => true
                 | inr nested =>
                     hasDef nested && (mistaken nested || discriminable nested)
                 end) entries
  end.

(** The same tree with the entries of some records, at any depth, in
    another order; as in a JavaScript object, a record that is reordered
    has no two entries of one name. *)
Inductive reorder : RouterRecord ZodType -> RouterRecord ZodType -> Prop :=
| reorder_here (es es' : list (string * RouterEntry ZodType)) :
    NoDup (Obj.keys es) ->
    Permutation es es' -> reorder (Entries es) (Entries es')
| reorder_nested (pre post : list (string * RouterEntry ZodType))
    (k : string) (r r' : RouterRecord ZodType) :
    reorder r r' ->
    reorder (Entries (pre ++ (k, inr r) :: post))
            (Entries (pre ++ (k, inr r') :: post))
| reorder_trans (r1 r2 r3 : RouterRecord ZodType) :
    reorder r1 r2 -> reorder r2 r3 -> reorder r1 r3.

(** A procedure that is given a route: a query or a mutation. *)
Definition routed (p : AnyProcedure ZodType) : bool :=
  match type (_def p) with
  | subscription => false
  | _ => true
  end.

(** The route strings the walk writes, one per routed procedure, in
    processing order. *)
Definition routes (basePath : string) (r : RouterRecord ZodType)
  : list string :=
  map (fun np => route basePath (fst np))
      (filter (fun np => routed (snd np)) (leaves r)).

End Tree.

(** ** Induction over procedure trees *)

Section TreeInduction.

Variable ZodType : Type.
Variable P : RouterRecord ZodType -> Prop.

Definition below (kv : string * RouterEntry ZodType) : Prop :=
  match snd kv with
  | inl _ => True
  | inr nested => P nested
  end.

Hypothesis P_Entries :
  forall entries : list (string * RouterEntry ZodType),
    Forall below entries -> P (Entries entries).

Fixpoint RouterRecord_nested_ind (r : RouterRecord ZodType) : P r :=
  match r with
  | Entries entries =>
      P_Entries
        ((fix all (es : list (string * RouterEntry ZodType))
            : Forall below es :=
            match es with
            | [] => Forall_nil below
            | (k, e) :: rest =>
                Forall_cons (k, e)
                  (match e return below (k, e) with
                   | inl _ => I
                   | inr nested => RouterRecord_nested_ind nested
                   end)
                  (all rest)
            end) entries)
  end.

End TreeInduction.

Arguments below {ZodType} P kv.
Arguments RouterRecord_nested_ind : clear implicits.

(** ** The walk, seen from outside *)

Section Walk.

Variables ZodType JSONSchema : Type.
Variable toJSONSchema : ZodType -> JSONSchema.

(** The loop of [getPathsForRouterRecord] as a function of the entries
    still to visit and the accumulator ([loop_eq] below). *)
Fixpoint loop (basePath : string)
  (entries : list (string * RouterEntry ZodType))
  (paths : PathsObject JSONSchema) : completion (PathsObject JSONSchema) :=
  match entries with
  | [] => Return paths
  | (procedureName, procedureOrRouterRecord) :: rest =>
      guard <- isProcedure procedureOrRouterRecord ;;
      source <-
        match guard, procedureOrRouterRecord with
        | true, inl procedure =>
            Return (getPathsForProcedure toJSONSchema basePath
                      procedureName procedure)
        | true, inr record => getPathsForProcedureOnRecord JSONSchema record
        | false, inr nested =>
            getPathsForRouterRecord toJSONSchema basePath nested
        | false, inl _ =>
            Throw (TypeError "a procedure the guard refuses")
        end ;;
      loop basePath rest (Obj.assign paths source)
  end.

(** The fragments the translator returns for a list of procedures, one
    after the other. *)
Definition emitted (basePath : string)
  (l : list (string * AnyProcedure ZodType)) : PathsObject JSONSchema :=
  flat_map (fun np => getPathsForProcedure toJSONSchema basePath
                        (fst np) (snd np)) l.

(** What the type guard throws on a record without [_def]. *)
Definition guardError : exception :=
  TypeError "Cannot read properties of undefined (reading 'procedure')".

(** Reading a document as the tests do:
    [paths[route]?.[method]] and [operation.responses?.['200']]. *)
Definition operationAt (paths : PathsObject JSONSchema)
  (route method : string) : option (OperationObject JSONSchema) :=
  match Obj.get paths route with
  | Some item => Obj.get item method
  | None => None
  end.

(** Every schema an operation carries for its input, in a parameter or
    in the request body. *)
Definition contentSchemas (c : Obj.t (MediaTypeObject JSONSchema))
  : list (SchemaObject JSONSchema) :=
  map (fun kv => schema (snd kv)) c.

Definition inputSchemas (operation : OperationObject JSONSchema)
  : list (SchemaObject JSONSchema) :=
  match parameters operation with
  | Some ps => flat_map (fun q => contentSchemas (param_content q)) ps
  | None => []
  end ++
  match requestBody operation with
  | Some body => contentSchemas (body_content body)
  | None => []
  end.

Definition response200 (operation : OperationObject JSONSchema)
  : option (ResponseObject JSONSchema) :=
  match responses operation with
  | Some rs => Obj.get rs "200"
  | None => None
  end.

End Walk.

(** ** The translation over a store

    The same functions once more, this time with the objects they read
    and write held in a store, to say what they mutate.  A router record
    is a cell that maps property names to the addresses of its entries;
    [paths] (line 86) and [operation] (line 128) are cells the functions
    allocate and then assign to.  An object literal that is returned
    complete and never assigned to afterwards is kept in its cell as a
    value.  [z.toJSONSchema] is a function: it touches no cell. *)

Module Store.

Section Store.

Variables ZodType JSONSchema : Type.
Variable toJSONSchema : ZodType -> JSONSchema.

Definition address : Type := nat.

Inductive cell : Type :=
| ProcedureCell (p : AnyProcedure ZodType)
| RecordCell (props : Obj.t address)
| PathsCell (paths : PathsObject JSONSchema)
| OperationCell (operation : OperationObject JSONSchema).

(** The cell at address [a] is the [a]-th of the list; [new] appends. *)
Definition store : Type := list cell.

(** A computation over the store returns or throws, and leaves a store
    either way. *)
Definition M (A : Type) : Type := store -> completion A * store.

Definition ret {A : Type} (a : A) : M A := fun h => (Return a, h).

Definition throw {A : Type} (e : exception) : M A := fun h => (Throw e, h).

Definition seq {A B : Type} (m : M A) (k : A -> M B) : M B :=
  fun h =>
    match m h with
    | (Return a, h') => k a h'
    | (Throw e, h') => (Throw e, h')
    end.

Definition new (c : cell) : M address :=
  fun h => (Return (List.length h), h ++ [c]).

(** An address outside the store, or a cell of the wrong kind, is not
    something JavaScript can produce: the model throws [Stuck]. *)
Definition Stuck : exception := TypeError "not an object of the store".

Definition read (a : address) : M cell :=
  fun h =>
    match nth_error h a with
    | Some c => (Return c, h)
    | None => (Throw Stuck, h)
    end.

Fixpoint update (h : store) (a : address) (c : cell) : store :=
  match h, a with
  | [], _ => []
  | _ :: h', O => c :: h'
  | c0 :: h', S a' => c0 :: update h' a' c
  end.

Definition write (a : address) (c : cell) : M unit :=
  fun h =>
    if Nat.ltb a (List.length h) then (Return tt, update h a c)
    else (Throw Stuck, h).

Notation "x <~ c ;; k" := (seq c (fun x => k))
  (at level 61, c at next level, right associativity).

(** [operation.field = ...]: the cell of [operation] is rewritten. *)
Definition assignOperation (operation : address)
  (f : OperationObject JSONSchema -> OperationObject JSONSchema) : M unit :=
  c <~ read operation ;;
  match c with
  | OperationCell o => write operation (OperationCell (f o))
  | _ => throw Stuck
  end.

(** [Object.assign(target, source)] on two paths objects: [target] is
    rewritten, [source] is read. *)
Definition Object_assign (target source : address) : M unit :=
  s <~ read source ;;
  t <~ read target ;;
  match t, s with
  | PathsCell t, PathsCell s => write target (PathsCell (Obj.assign t s))
  | _, _ => throw Stuck
  end.

(** Lines 203-209. *)
Definition isProcedure (maybeProcedure : address) : M bool :=
  c <~ read maybeProcedure ;;
  match c with
  | ProcedureCell _ => ret true
  | RecordCell props =>
      match Obj.get props "_def" with
      | None => throw guardError
      | Some def =>
          (* [def.procedure] is [true] on a procedure object; on a record
             it is undefined or an entry, never [true] *)
          c' <~ read def ;;
          match c' with
          | ProcedureCell _ => ret true
          | _ => ret false
          end
      end
  | _ => throw Stuck
  end.

(** Lines 112-201. *)
Definition getPathsForProcedure (basePath procedureName : string)
  (procedure : address) : M address :=
  c <~ read procedure ;;
  match c with
  | ProcedureCell p =>
      let def := _def p in
      match PROCEDURE_TYPE_HTTP_METHOD_MAP (type def) with
      | None => new (PathsCell [])
      | Some method =>
          operation <~ new (OperationCell
                              {| operationId := procedureName;
                                 parameters := None; requestBody := None;
                                 responses := None |}) ;;
          _ <~ match hd_error (inputs def) with
               | Some input0 =>
                   let jsonSchema := toJSONSchema input0 in
                   let content := jsonContent (OfJSONSchema jsonSchema) in
                   if String.eqb method "get" then
                     assignOperation operation (fun o =>
                       set_parameters o
                         [{| name := "input"; in_ := "query";
                             param_content := content |}])
                   else
                     assignOperation operation (fun o =>
                       set_requestBody o
                         {| required := true; body_content := content |})
               | None => ret tt
               end ;;
          _ <~ match output def with
               | Some out =>
                   let outputJsonSchema := toJSONSchema out in
                   assignOperation operation (fun o =>
                     set_responses o
                       [("200",
                         {| description := "Successful response";
                            content := Some (jsonContent
                                               (responseSchema outputJsonSchema)) |})])
               | None =>
                   assignOperation operation (fun o =>
                     set_responses o
                       [("200", {| description := "Successful response";
                                   content := None |})])
               end ;;
          c' <~ read operation ;;
          match c' with
          | OperationCell o =>
              new (PathsCell [(route basePath procedureName, [(method, o)])])
          | _ => throw Stuck
          end
      end
  | RecordCell props =>
      (* a record the guard took for a procedure: [def.type] is read off
         an entry and is no key of the method map (lines 121-126) *)
      match Obj.get props "_def" with
      | None =>
          throw (TypeError
                   "Cannot read properties of undefined (reading 'type')")
      | Some def =>
          _ <~ read def ;;
          new (PathsCell [])
      end
  | _ => throw Stuck
  end.

(** The [for ... of] loop of lines 88-104 over the properties of a
    record, [visit] being the walk of a nested record. *)
Fixpoint forEntries (visit : address -> M address) (basePath : string)
  (paths : address) (entries : list (string * address)) : M unit :=
  match entries with
  | [] => ret tt
  | (procedureName, procedureOrRouterRecord) :: rest =>
      guard <~ isProcedure procedureOrRouterRecord ;;
      source <~ (if guard : bool
                 then getPathsForProcedure basePath procedureName
                        procedureOrRouterRecord
                 else visit procedureOrRouterRecord) ;;
      _ <~ Object_assign paths source ;;
      forEntries visit basePath paths rest
  end.

(** Lines 79-107.  A store may hold a record that contains itself, on
    which the walk does not end: [fuel] bounds the depth of the calls. *)
Definition OutOfFuel : exception := TypeError "out of fuel".

Fixpoint getPathsForRouterRecord (fuel : nat) (basePath : string)
  (routerRecord : address) : M address :=
  match fuel with
  | O => throw OutOfFuel
  | S fuel' =>
      paths <~ new (PathsCell []) ;;
      c <~ read routerRecord ;;
      match c with
      | RecordCell props =>
          _ <~ forEntries (getPathsForRouterRecord fuel' basePath)
                 basePath paths props ;;
          ret paths
      | _ => throw Stuck
      end
  end.

(** What a store holds at an address, as a tree. *)
Inductive represents (h : store) : address -> RouterEntry ZodType -> Prop :=
| represents_procedure a p :
    nth_error h a = Some (ProcedureCell p) ->
    represents h a (inl p)
| represents_record a props entries :
    nth_error h a = Some (RecordCell props) ->
    Forall2 (fun kp ke => fst kp = fst ke /\ represents h (snd kp) (snd ke))
            props entries ->
    represents h a (inr (Entries entries)).

(** The nesting depth of a tree: 1 for a record of procedures. *)
Fixpoint depth (r : RouterRecord ZodType) : nat :=
  match r with
  | Entries entries =>
      S (fold_right (fun kv d =>
                       match snd kv with
                       | inl _ => d
                       | inr nested => Nat.max (depth nested) d
                       end) 0 entries)
  end.

(** [h'] still holds every cell of [h] unchanged. *)
Definition preserved (h h' : store) : Prop :=
  firstn (List.length h) h' = h.

(** Lines 56-74: the document is an object literal around the paths
    object of the walk; [procedures] is the address of
    [router._def.procedures]. *)
Definition trpc2OpenApi (fuel : nat) (apiTitle apiVersion basePath : string)
  (procedures : address) : M (Document JSONSchema) :=
  paths <~ getPathsForRouterRecord fuel basePath procedures ;;
  c <~ read paths ;;
  match c with
  | PathsCell paths =>
      ret {| openapi := "3.1.0";
             info := {| title := apiTitle; version := apiVersion |};
             paths := paths;
             components := [];
             jsonSchemaDialect := None; servers := None; webhooks := None;
             security := None; tags := None; externalDocs := None |}
  | _ => throw Stuck
  end.

End Store.

End Store.

(** ** What the functions over the store are to satisfy *)

Section StoreSpec.

Variables ZodType JSONSchema : Type.
Variable toJSONSchema : ZodType -> JSONSchema.

Local Abbreviation store := (Store.store ZodType JSONSchema).
Local Abbreviation M := (Store.M ZodType JSONSchema).

(** A computation keeps the cells below [n] when, run on a store that has
    them, it leaves them as they are and drops no cell. *)
Definition keeps (n : nat) {A : Type} (m : M A) : Prop :=
  forall h : store,
    n <= List.length h ->
    firstn n (snd (m h)) = firstn n h /\
    List.length h <= List.length (snd (m h)).

(** What the walk over the store is to do for a tree: return the address
    of a paths object equal to the walk over the tree, or throw what that
    walk throws. *)
Definition computes (b : string) (r : RouterRecord ZodType)
  (run : store -> completion Store.address * store) (h : store) : Prop :=
  match getPathsForRouterRecord toJSONSchema b r with
  | Return paths =>
      exists pa, fst (run h) = Return pa /\
                 nth_error (snd (run h)) pa = Some (Store.PathsCell _ paths)
  | Throw e => fst (run h) = Throw e
  end.

End StoreSpec.

Arguments keeps {ZodType JSONSchema} n {A} m.
Arguments computes {ZodType JSONSchema} toJSONSchema b r run h.

(** ** Reading the keys of a document *)

Section Keys.

Variable V : Type.

(** The object with [b] put in front of every key. *)
Definition prefixKeys (b : string) (o : Obj.t V) : Obj.t V :=
  map (fun kv => ((b ++ fst kv)%string, snd kv)) o.

(** [k] is one of the keys [ks]. *)
Definition isKey (ks : list string) (k : string) : bool :=
  existsb (String.eqb k) ks.

(** A list of keys with every key kept where it stands first. *)
Fixpoint firstOccurrences (ks : list string) : list string :=
  match ks with
  | [] => []
  | k :: ks' =>
      k :: filter (fun k' => negb (String.eqb k k')) (firstOccurrences ks')
  end.

End Keys.

Arguments isKey ks k : clear implicits.
Arguments firstOccurrences ks : clear implicits.

(** ** A stand-in for zod, for closed examples

    Schemas are named by a number and the conversion tags the number, so
    that converted and unconverted schemas cannot be confused. *)

Module Example.

Inductive Json : Type := Converted (zod : nat).

Definition toJSONSchema (z : nat) : Json := Converted z.

Definition procedure (t : ProcedureType) (ins : list nat) (out : option nat)
  : AnyProcedure nat :=
  {| _def := {| type := t; inputs := ins; output := out |} |}.

Definition options (base : string) (tree : RouterRecord nat) : Options nat :=
  {| apiTitle := "Test API"; apiVersion := "1.0.0"; basePath := base;
     router := {| procedures := tree |} |}.

(** Procedures after the test suite: schema 1 is the input, schema 2 the
    output of [greeting]; 3 to 5 are the inputs of [createUser]. *)
Definition greeting : AnyProcedure nat := procedure query [1] (Some 2).
Definition createUser : AnyProcedure nat := procedure mutation [3; 4; 5] None.
Definition onMessage : AnyProcedure nat := procedure subscription [] None.
Definition health : AnyProcedure nat := procedure query [] None.
Definition reset : AnyProcedure nat := procedure mutation [] None.

(** [{ onMessage, greeting }] *)
Definition chat : RouterRecord nat :=
  Entries [("onMessage", inl onMessage); ("greeting", inl greeting)].

(** [{ health, createUser }] and the same record declared the other way
    round. *)
Definition admin : RouterRecord nat :=
  Entries [("health", inl health); ("createUser", inl createUser)].
Definition admin' : RouterRecord nat :=
  Entries [("createUser", inl createUser); ("health", inl health)].

(** [{ users: { list } }]: a nested record without [_def]. *)
Definition grouped : RouterRecord nat :=
  Entries [("users", inr (Entries [("list", inl health)]))].

(** [{ _def: onMessage }]: a record whose [_def] is a procedure; the
    guard takes it for a procedure. *)
Definition marker : RouterRecord nat := Entries [("_def", inl onMessage)].



(** [{ status, ops: { _def: { _def: onMessage }, status } }]: two
    procedures named [status], a query at the top and a mutation in a
    nested record that the walk enters. *)
Definition clash : RouterRecord nat :=
  Entries [("status", inl health);
           ("ops", inr (Entries [("_def", inr marker);
                                 ("status", inl reset)]))].
Definition clash' : RouterRecord nat :=
  Entries [("ops", inr (Entries [("_def", inr marker);
                                 ("status", inl reset)]));
           ("status", inl health)].

(** [{ greeting }], and two stores that hold it: one with nothing else,
    one where it lies among other cells at other addresses. *)
Definition hello : RouterRecord nat := Entries [("greeting", inl greeting)].

Definition store1 : Store.store nat Json :=
  [Store.ProcedureCell Json greeting;
   Store.RecordCell nat Json [("greeting", 0)]].

Definition store2 : Store.store nat Json :=
  [Store.PathsCell nat [("/old", [])];
   Store.RecordCell nat Json [("greeting", 2)];
   Store.ProcedureCell Json greeting].

End Example.

(** Further trees for closed examples. *)

Module MoreExamples.

Import Example.

(** [{ getUser, onMessage, createUser }], after the test of several
    procedures in one router. *)
Definition users : list (string * AnyProcedure nat) :=
  [("getUser", greeting); ("onMessage", onMessage); ("createUser", createUser)].

(** [{ status, ops: { _def: { _def: onMessage }, reset, status } }]: the
    route of [status] is written twice, first by a query, last by a
    mutation. *)
Definition shadowed : RouterRecord nat :=
  Entries [("status", inl health);
           ("ops", inr (Entries [("_def", inr marker);
                                 ("reset", inl reset);
                                 ("status", inl reset)]))].

End MoreExamples.

(** * Properties *)

Unset Implicit Arguments.

(** ** Facts about property lists *)

Module ObjFacts.

Section WithValue.

Variable V : Type.
Implicit Types (o t s : Obj.t V) (k : string) (v : V).

Lemma get_set o k v k' :
  Obj.get (Obj.set o k v) k' =
  if String.eqb k k' then Some v else Obj.get o k'.
Proof.
  induction o as [|[k0 v0] o IH]; simpl.
  - reflexivity.
  - destruct (String.eqb k0 k) eqn:E0; simpl.
    + apply String.eqb_eq in E0; subst k0.
      destruct (String.eqb k k'); reflexivity.
    + destruct (String.eqb k0 k') eqn:E1.
      * apply String.eqb_eq in E1; subst k0.
        rewrite String.eqb_sym, E0. reflexivity.
      * exact IH.
Qed.

Lemma get_None_iff o k : Obj.get o k = None <-> ~ In k (Obj.keys o).
Proof.
  induction o as [|[k0 v0] o IH]; simpl.
  - tauto.
  - destruct (String.eqb k0 k) eqn:E.
    + apply String.eqb_eq in E. split; [discriminate | tauto].
    + apply String.eqb_neq in E. rewrite IH. tauto.
Qed.

Lemma get_In o k v : Obj.get o k = Some v -> In (k, v) o.
Proof.
  induction o as [|[k0 v0] o IH]; simpl; [discriminate|].
  destruct (String.eqb k0 k) eqn:E.
  - apply String.eqb_eq in E. intros [= ->]. subst. now left.
  - intros H. right. now apply IH.
Qed.

Lemma In_get o k v :
  NoDup (Obj.keys o) -> In (k, v) o -> Obj.get o k = Some v.
Proof.
  induction o as [|[k0 v0] o IH]; simpl; [tauto|].
  intros Hnd [Heq | Hin]; inversion Hnd as [|? ? Hnotin Hnd']; subst.
  - inversion Heq; subst. now rewrite String.eqb_refl.
  - destruct (String.eqb k0 k) eqn:E.
    + apply String.eqb_eq in E; subst k0. exfalso. apply Hnotin.
      apply (in_map fst) in Hin. exact Hin.
    + now apply IH.
Qed.

Lemma set_In o k v :
  In k (Obj.keys o) -> Obj.keys (Obj.set o k v) = Obj.keys o.
Proof.
  induction o as [|[k0 v0] o IH]; simpl; [tauto|].
  intros H. destruct (String.eqb k0 k) eqn:E; simpl.
  - reflexivity.
  - apply String.eqb_neq in E. f_equal. apply IH. tauto.
Qed.

Lemma set_notIn o k v :
  ~ In k (Obj.keys o) -> Obj.set o k v = o ++ [(k, v)].
Proof.
  induction o as [|[k0 v0] o IH]; simpl; [reflexivity|].
  intros H. destruct (String.eqb k0 k) eqn:E.
  - apply String.eqb_eq in E. tauto.
  - f_equal. apply IH. tauto.
Qed.

Lemma keys_set o k v :
  Obj.keys (Obj.set o k v) =
  if in_dec string_dec k (Obj.keys o) then Obj.keys o
  else Obj.keys o ++ [k].
Proof.
  destruct (in_dec string_dec k (Obj.keys o)) as [H|H].
  - now apply set_In.
  - rewrite set_notIn by assumption. unfold Obj.keys. now rewrite map_app.
Qed.

Lemma In_keys_set o k v k' :
  In k' (Obj.keys (Obj.set o k v)) <-> k' = k \/ In k' (Obj.keys o).
Proof.
  rewrite keys_set. destruct (in_dec string_dec k (Obj.keys o)) as [H|H].
  - split; [tauto|]. intros [->|]; assumption.
  - rewrite in_app_iff. simpl. intuition congruence.
Qed.

Lemma NoDup_set o k v :
  NoDup (Obj.keys o) -> NoDup (Obj.keys (Obj.set o k v)).
Proof.
  intros Hnd. rewrite keys_set.
  destruct (in_dec string_dec k (Obj.keys o)) as [H|H]; [assumption|].
  apply NoDup_app; [assumption | repeat constructor; simpl; tauto |].
  intros x Hx [<-|[]]. contradiction.
Qed.

Lemma get_app o1 o2 k :
  Obj.get (o1 ++ o2) k =
  match Obj.get o1 k with
  | Some v => Some v
  | None => Obj.get o2 k
  end.
Proof.
  induction o1 as [|[k0 v0] o1 IH]; simpl; [reflexivity|].
  destruct (String.eqb k0 k); [reflexivity | exact IH].
Qed.

Lemma set_set_same o k v v' :
  Obj.set (Obj.set o k v) k v' = Obj.set o k v'.
Proof.
  induction o as [|[k0 v0] o IH]; simpl.
  - now rewrite String.eqb_refl.
  - destruct (String.eqb k0 k) eqn:E; simpl; rewrite E.
    + reflexivity.
    + now rewrite IH.
Qed.

Lemma set_set_comm o k v k2 v2 :
  In k (Obj.keys o) -> k <> k2 ->
  Obj.set (Obj.set o k2 v2) k v = Obj.set (Obj.set o k v) k2 v2.
Proof.
  intros Hin Hne.
  induction o as [|[k0 v0] o IH]; simpl in *; [tauto|].
  destruct (String.eqb k0 k2) eqn:E2; destruct (String.eqb k0 k) eqn:E;
    simpl; rewrite ?E, ?E2; try reflexivity.
  - apply String.eqb_eq in E2, E. congruence.
  - f_equal. apply IH. apply String.eqb_neq in E. tauto.
Qed.

Lemma assign_cons t k v s :
  Obj.assign t ((k, v) :: s) = Obj.assign (Obj.set t k v) s.
Proof. reflexivity. Qed.

Lemma assign_app t s1 s2 :
  Obj.assign t (s1 ++ s2) = Obj.assign (Obj.assign t s1) s2.
Proof. unfold Obj.assign. apply fold_left_app. Qed.

Lemma In_keys_assign t s k :
  In k (Obj.keys (Obj.assign t s)) <->
  In k (Obj.keys t) \/ In k (Obj.keys s).
Proof.
  revert t. induction s as [|[k0 v0] s IH]; intros t.
  - simpl. tauto.
  - rewrite assign_cons, IH, In_keys_set. simpl. intuition congruence.
Qed.

Lemma NoDup_assign t s :
  NoDup (Obj.keys t) -> NoDup (Obj.keys (Obj.assign t s)).
Proof.
  revert t. induction s as [|[k0 v0] s IH]; intros t H.
  - exact H.
  - rewrite assign_cons. apply IH. now apply NoDup_set.
Qed.

Lemma set_assign_comm t s k v :
  In k (Obj.keys t) -> ~ In k (Obj.keys s) ->
  Obj.set (Obj.assign t s) k v = Obj.assign (Obj.set t k v) s.
Proof.
  revert t. induction s as [|[k0 v0] s IH]; intros t Hin Hnot.
  - reflexivity.
  - simpl in Hnot. rewrite !assign_cons, IH.
    + f_equal. apply set_set_comm; [assumption|]. intros ->. tauto.
    + apply In_keys_set. now right.
    + tauto.
Qed.

(** Assigning from an object that was itself updated is updating the
    result of the assignment: [Object.assign] reads each property of
    its source once. *)
Lemma assign_set t o k v :
  NoDup (Obj.keys o) ->
  Obj.assign t (Obj.set o k v) = Obj.set (Obj.assign t o) k v.
Proof.
  revert t. induction o as [|[k0 v0] o IH]; intros t Hnd.
  - reflexivity.
  - simpl in Hnd. apply NoDup_cons_iff in Hnd as [Hnot Hnd].
    simpl. destruct (String.eqb k0 k) eqn:E.
    + apply String.eqb_eq in E; subst k0.
      rewrite !assign_cons, set_assign_comm.
      * now rewrite set_set_same.
      * apply In_keys_set. now left.
      * exact Hnot.
    + rewrite !assign_cons. now apply IH.
Qed.

Lemma assign_assoc t o s :
  NoDup (Obj.keys o) ->
  Obj.assign t (Obj.assign o s) = Obj.assign (Obj.assign t o) s.
Proof.
  revert o. induction s as [|[k v] s IH]; intros o Hnd.
  - reflexivity.
  - rewrite !assign_cons, IH by now apply NoDup_set.
    now rewrite assign_set.
Qed.

(** The last binding of a key in the source wins; a key the source
    does not mention keeps the target's value. *)
Lemma get_assign t s k :
  Obj.get (Obj.assign t s) k =
  match Obj.get (rev s) k with
  | Some v => Some v
  | None => Obj.get t k
  end.
Proof.
  revert t. induction s as [|[k0 v0] s IH]; intros t.
  - reflexivity.
  - rewrite assign_cons, IH. simpl rev. rewrite get_app, get_set. simpl.
    destruct (Obj.get (rev s) k); [reflexivity|].
    destruct (String.eqb k0 k); reflexivity.
Qed.

(** Onto a target that shares no key with it, a source without repeated
    keys is appended as it is. *)
Lemma assign_disjoint t s :
  NoDup (Obj.keys (t ++ s)) -> Obj.assign t s = t ++ s.
Proof.
  revert t. induction s as [|[k v] s IH]; intros t Hnd.
  - now rewrite app_nil_r.
  - rewrite assign_cons, set_notIn.
    + rewrite IH; rewrite <- app_assoc; [reflexivity | exact Hnd].
    + unfold Obj.keys in *. rewrite map_app in Hnd. simpl in Hnd.
      apply NoDup_remove_2 in Hnd. rewrite in_app_iff in Hnd. tauto.
Qed.

Lemma get_Permutation o o' k :
  NoDup (Obj.keys o) -> Permutation o o' -> Obj.get o k = Obj.get o' k.
Proof.
  intros Hnd Hp.
  assert (Hnd' : NoDup (Obj.keys o')).
  { unfold Obj.keys. eapply Permutation_NoDup; [|exact Hnd].
    now apply Permutation_map. }
  destruct (Obj.get o k) as [v|] eqn:Hg.
  - symmetry. apply In_get; [assumption|].
    eapply Permutation_in; [exact Hp|]. now apply get_In.
  - symmetry. apply get_None_iff. apply get_None_iff in Hg.
    intros Hin. apply Hg. unfold Obj.keys in *.
    eapply Permutation_in; [|exact Hin].
    apply Permutation_map. now symmetry.
Qed.

End WithValue.

End ObjFacts.

(** ** The walk, characterised *)

Section WalkFacts.

Context {ZodType JSONSchema : Type}.
Variable toJSONSchema : ZodType -> JSONSchema.

Local Abbreviation translate := (getPathsForProcedure toJSONSchema).
Local Abbreviation walk := (getPathsForRouterRecord toJSONSchema).

Lemma isProcedure_inl (p : AnyProcedure ZodType) :
  isProcedure (inl p) = Return true.
Proof. reflexivity. Qed.

Lemma isProcedure_inr (r : RouterRecord ZodType) :
  isProcedure (inr r) =
  if hasDef r then Return (mistaken r) else Throw guardError.
Proof.
  unfold isProcedure, hasDef, mistaken. simpl.
  destruct (Obj.get (Object_entries r) "_def") as [[p|r']|]; simpl.
  - reflexivity.
  - destruct (Obj.get (Object_entries r') "procedure") as [[?|?]|];
      reflexivity.
  - reflexivity.
Qed.

(** On a record the guard takes for a procedure the translator returns
    the empty object. *)
Lemma getPathsForProcedureOnRecord_mistaken (r : RouterRecord ZodType) :
  mistaken r = true ->
  getPathsForProcedureOnRecord JSONSchema r = Return [].
Proof.
  unfold mistaken, getPathsForProcedureOnRecord. simpl.
  destruct (Obj.get (Object_entries r) "_def") as [[p|r']|];
    try discriminate.
  reflexivity.
Qed.

Lemma loop_eq b (es : list (string * RouterEntry ZodType)) :
  walk b (Entries es) = loop toJSONSchema b es [].
Proof.
  simpl. generalize (@nil (string * PathItemObject JSONSchema)).
  induction es as [|[n e] es IH]; intros acc; simpl.
  - reflexivity.
  - destruct (isProcedure e) as [g|]; simpl; [|reflexivity].
    destruct g, e; simpl; try reflexivity.
    + apply IH.
    + destruct (getPathsForProcedureOnRecord JSONSchema r); simpl;
        [apply IH | reflexivity].
    + destruct (walk b r); simpl; [apply IH | reflexivity].
Qed.

Lemma emitted_app b (l1 l2 : list (string * AnyProcedure ZodType)) :
  emitted toJSONSchema b (l1 ++ l2) =
  emitted toJSONSchema b l1 ++ emitted toJSONSchema b l2.
Proof. unfold emitted. apply flat_map_app. Qed.

Lemma emitted_cons b n p (l : list (string * AnyProcedure ZodType)) :
  emitted toJSONSchema b ((n, p) :: l) =
  translate b n p ++ emitted toJSONSchema b l.
Proof. reflexivity. Qed.

Lemma leaves_cons_inl n p (es : list (string * RouterEntry ZodType)) :
  leaves (Entries ((n, inl p) :: es)) = (n, p) :: leaves (Entries es).
Proof. reflexivity. Qed.

Lemma leaves_cons_inr n r (es : list (string * RouterEntry ZodType)) :
  leaves (Entries ((n, inr r) :: es)) =
  (if mistaken r then [] else leaves r) ++ leaves (Entries es).
Proof. reflexivity. Qed.

Lemma discriminable_cons_inl n p (es : list (string * RouterEntry ZodType)) :
  discriminable (Entries ((n, inl p) :: es)) = discriminable (Entries es).
Proof. reflexivity. Qed.

Lemma discriminable_cons_inr n r (es : list (string * RouterEntry ZodType)) :
  discriminable (Entries ((n, inr r) :: es)) =
  hasDef r && (mistaken r || discriminable r) && discriminable (Entries es).
Proof. reflexivity. Qed.

Lemma loop_spec b (es : list (string * RouterEntry ZodType)) :
  Forall (below (fun r =>
            walk b r =
            if discriminable r
            then Return (Obj.assign [] (emitted toJSONSchema b (leaves r)))
            else Throw guardError)) es ->
  forall acc,
    loop toJSONSchema b es acc =
    if discriminable (Entries es)
    then Return (Obj.assign acc (emitted toJSONSchema b (leaves (Entries es))))
    else Throw guardError.
Proof.
  induction 1 as [|[n e] es He Hes IH]; intros acc.
  - reflexivity.
  - cbn [loop]. destruct e as [p|r].
    + rewrite isProcedure_inl. cbn [bind]. rewrite IH.
      rewrite discriminable_cons_inl, leaves_cons_inl, emitted_cons.
      now rewrite ObjFacts.assign_app.
    + rewrite isProcedure_inr, discriminable_cons_inr, leaves_cons_inr.
      destruct (hasDef r); [|reflexivity]. cbn [bind andb].
      destruct (mistaken r) eqn:Hm; cbn [orb].
      * rewrite (getPathsForProcedureOnRecord_mistaken r Hm). cbn [bind].
        exact (IH acc).
      * unfold below in He; cbn [snd] in He. rewrite He.
        destruct (discriminable r); [|reflexivity]. cbn [bind andb].
        rewrite IH, emitted_app, ObjFacts.assign_app.
        rewrite ObjFacts.assign_assoc by constructor.
        reflexivity.
Qed.

(** The walk throws exactly when a record it meets lacks [_def];
    otherwise it returns the fragments of the procedures it meets,
    assigned in order onto the empty object. *)
Theorem walk_spec b (r : RouterRecord ZodType) :
  walk b r =
  if discriminable r
  then Return (Obj.assign [] (emitted toJSONSchema b (leaves r)))
  else Throw guardError.
Proof.
  induction r as [es IH] using (RouterRecord_nested_ind ZodType).
  rewrite loop_eq. now apply loop_spec.
Qed.

End WalkFacts.

(** ** One procedure *)

Section TranslatorFacts.

Context {ZodType JSONSchema : Type}.
Variable toJSONSchema : ZodType -> JSONSchema.

Local Abbreviation translate := (getPathsForProcedure toJSONSchema).

Lemma translate_routed b n (p : AnyProcedure ZodType) :
  routed p = true ->
  exists method,
    PROCEDURE_TYPE_HTTP_METHOD_MAP (type (_def p)) = Some method /\
    translate b n p =
    [(route b n, [(method, buildOperation toJSONSchema method n (_def p))])].
Proof.
  unfold routed, getPathsForProcedure.
  destruct (type (_def p)); intros H; try discriminate; eexists; split;
    reflexivity.
Qed.

Lemma translate_unrouted b n (p : AnyProcedure ZodType) :
  routed p = false -> translate b n p = [].
Proof.
  unfold routed, getPathsForProcedure.
  destruct (type (_def p)); intros H; try discriminate. reflexivity.
Qed.

(** C1: a query or mutation with a declared output answers 200 with the
    description "Successful response" and, under application/json, the
    schema [{type: "object", required: ["result"], properties: {result:
    {type: "object", required: ["data"], properties: {data: <converted
    output>}}}}]; without a declared output the 200 response is the
    description alone, with no content. *)
Theorem success_response_envelope b n (p : AnyProcedure ZodType) :
  routed p = true ->
  exists method operation,
    translate b n p = [(route b n, [(method, operation)])] /\
    response200 operation =
    Some match output (_def p) with
         | Some out =>
             {| description := "Successful response";
                content :=
                  Some [("application/json",
                         {| schema :=
                              Schema "object"
                                [("result",
                                  Schema "object"
                                    [("data", OfJSONSchema (toJSONSchema out))]
                                    ["data"])]
                                ["result"] |})] |}
         | None =>
             {| description := "Successful response"; content := None |}
         end.
Proof.
  intros Hr. destruct (translate_routed b n p Hr) as (method & _ & ->).
  exists method, (buildOperation toJSONSchema method n (_def p)).
  split; [reflexivity|].
  unfold buildOperation, response200.
  destruct (output (_def p)); reflexivity.
Qed.

(** C3: without a declared input the operation has neither parameters
    nor a request body; a query with an input has the single parameter
    "input" in "query" carrying the converted schema under
    application/json; a mutation with an input has a required request
    body carrying the same. *)
Theorem input_becomes_parameter_or_body b n (p : AnyProcedure ZodType) :
  routed p = true ->
  exists method operation,
    translate b n p = [(route b n, [(method, operation)])] /\
    match type (_def p), inputs (_def p) with
    | subscription, _ => False
    | _, [] => parameters operation = None /\ requestBody operation = None
    | query, i :: _ =>
        method = "get" /\
        parameters operation =
          Some [{| name := "input"; in_ := "query";
                   param_content :=
                     [("application/json",
                       {| schema := OfJSONSchema (toJSONSchema i) |})] |}] /\
        requestBody operation = None
    | mutation, i :: _ =>
        method = "post" /\
        requestBody operation =
          Some {| required := true;
                  body_content :=
                    [("application/json",
                      {| schema := OfJSONSchema (toJSONSchema i) |})] |} /\
        parameters operation = None
    end.
Proof.
  intros Hr. destruct (translate_routed b n p Hr) as (method & Hm & ->).
  exists method, (buildOperation toJSONSchema method n (_def p)).
  split; [reflexivity|].
  unfold routed in Hr. unfold buildOperation.
  destruct (type (_def p)); try discriminate; injection Hm as <-;
    destruct (inputs (_def p)) as [|i rest]; destruct (output (_def p));
    cbn; auto.
Qed.

(** C9: of several declared inputs only the first is read: the operation
    carries the conversion of [inputs[0]] and no other input schema, and
    the translator returns what it returns once the later inputs are
    removed. *)
Theorem only_first_input_is_used b n t i rest out :
  t <> subscription ->
  translate b n {| _def := {| type := t; inputs := i :: rest; output := out |} |} =
  translate b n {| _def := {| type := t; inputs := [i]; output := out |} |} /\
  exists method operation,
    translate b n {| _def := {| type := t; inputs := i :: rest; output := out |} |} =
    [(route b n, [(method, operation)])] /\
    inputSchemas operation = [OfJSONSchema (toJSONSchema i)].
Proof.
  intros Ht. split; [reflexivity|].
  destruct t; [| |contradiction].
  - eexists _, _. split; [reflexivity|]. destruct out; reflexivity.
  - eexists _, _. split; [reflexivity|]. destruct out; reflexivity.
Qed.

End TranslatorFacts.

(** ** The fragments of a tree *)

Section FragmentFacts.

Context {ZodType JSONSchema : Type}.
Variable toJSONSchema : ZodType -> JSONSchema.

Local Abbreviation translate := (getPathsForProcedure toJSONSchema).
Local Abbreviation walk := (getPathsForRouterRecord toJSONSchema).
Local Abbreviation fragments := (emitted toJSONSchema).

Lemma route_inj b n n' : route b n = route b n' -> n = n'.
Proof.
  unfold route. induction b as [|c b IH]; simpl; intros H.
  - now injection H.
  - injection H as H. now apply IH.
Qed.

Lemma walk_returns b (r : RouterRecord ZodType) paths :
  walk b r = Return paths ->
  discriminable r = true /\ paths = Obj.assign [] (fragments b (leaves r)).
Proof.
  rewrite walk_spec. destruct (discriminable r); [|discriminate].
  intros [= <-]. split; reflexivity.
Qed.

Lemma walk_throws b (r : RouterRecord ZodType) e :
  walk b r = Throw e -> discriminable r = false /\ e = guardError.
Proof.
  rewrite walk_spec. destruct (discriminable r); [discriminate|].
  intros [= <-]. split; reflexivity.
Qed.

Lemma In_fragments b (l : list (string * AnyProcedure ZodType)) k item :
  In (k, item) (fragments b l) <->
  exists n p, In (n, p) l /\ translate b n p = [(k, item)].
Proof.
  unfold emitted. rewrite in_flat_map. split.
  - intros ([n p] & Hin & Hfr). exists n, p. split; [assumption|].
    simpl in Hfr. destruct (routed p) eqn:Hr.
    + destruct (translate_routed toJSONSchema b n p Hr) as (m & _ & Heq).
      rewrite Heq in Hfr |- *. destruct Hfr as [<-|[]]. reflexivity.
    + rewrite (translate_unrouted toJSONSchema b n p Hr) in Hfr. destruct Hfr.
  - intros (n & p & Hin & Heq). exists (n, p). split; [assumption|].
    simpl. rewrite Heq. now left.
Qed.

Lemma keys_fragments b (l : list (string * AnyProcedure ZodType)) :
  Obj.keys (fragments b l) =
  map (fun np => route b (fst np)) (filter (fun np => routed (snd np)) l).
Proof.
  induction l as [|[n p] l IH]; [reflexivity|].
  rewrite emitted_cons. unfold Obj.keys in *. rewrite map_app, IH. simpl.
  destruct (routed p) eqn:Hr.
  - destruct (translate_routed toJSONSchema b n p Hr) as (m & _ & ->).
    reflexivity.
  - now rewrite (translate_unrouted toJSONSchema b n p Hr).
Qed.

Lemma keys_fragments_leaves b (r : RouterRecord ZodType) :
  Obj.keys (fragments b (leaves r)) = routes b r.
Proof. apply keys_fragments. Qed.

(** Looking a route up in the document is looking up its last fragment. *)
Lemma get_walk b (r : RouterRecord ZodType) paths k :
  walk b r = Return paths ->
  Obj.get paths k = Obj.get (rev (fragments b (leaves r))) k.
Proof.
  intros H. apply walk_returns in H as [_ ->].
  rewrite ObjFacts.get_assign. now destruct (Obj.get _ k).
Qed.

Lemma get_walk_In b (r : RouterRecord ZodType) paths k item :
  walk b r = Return paths ->
  Obj.get paths k = Some item ->
  exists n p, In (n, p) (leaves r) /\ translate b n p = [(k, item)].
Proof.
  intros Hw Hg. rewrite (get_walk b r paths k Hw) in Hg.
  apply ObjFacts.get_In, in_rev in Hg. now apply In_fragments.
Qed.

(** The fragment of a procedure is in the document unless a later
    procedure wrote the same route. *)
Lemma last_fragment_wins b (r : RouterRecord ZodType) paths l1 n p l2 item :
  walk b r = Return paths ->
  leaves r = l1 ++ (n, p) :: l2 ->
  translate b n p = [(route b n, item)] ->
  (forall q, In (n, q) l2 -> routed q = false) ->
  Obj.get paths (route b n) = Some item.
Proof.
  intros Hw Hl Hp Hlast. rewrite (get_walk b r paths (route b n) Hw), Hl.
  rewrite emitted_app, emitted_cons, Hp, rev_app_distr. simpl rev.
  rewrite ObjFacts.get_app.
  assert (Hnone : Obj.get (rev (fragments b l2) ++ [(route b n, item)])
                    (route b n) = Some item).
  { rewrite ObjFacts.get_app.
    assert (Hn : Obj.get (rev (fragments b l2)) (route b n) = None).
    { apply ObjFacts.get_None_iff. unfold Obj.keys.
      rewrite map_rev, <- in_rev. fold (Obj.keys (fragments b l2)).
      rewrite keys_fragments, in_map_iff.
      intros ([n' q] & Heq & Hin). simpl in Heq. apply route_inj in Heq.
      subst n'. apply filter_In in Hin as [Hin Hq]. simpl in Hq.
      rewrite (Hlast q Hin) in Hq. discriminate. }
    rewrite Hn. simpl. now rewrite String.eqb_refl. }
  now rewrite Hnone.
Qed.

End FragmentFacts.

(** ** Routes and methods of the document *)

Section DocumentFacts.

Context {ZodType JSONSchema : Type}.
Variable toJSONSchema : ZodType -> JSONSchema.

Local Abbreviation translate := (getPathsForProcedure toJSONSchema).
Local Abbreviation walk := (getPathsForRouterRecord toJSONSchema).
Local Abbreviation fragments := (emitted toJSONSchema).

Lemma translate_cases b n (p : AnyProcedure ZodType) :
  match type (_def p) with
  | query =>
      translate b n p =
      [(route b n, [("get", buildOperation toJSONSchema "get" n (_def p))])]
  | mutation =>
      translate b n p =
      [(route b n, [("post", buildOperation toJSONSchema "post" n (_def p))])]
  | subscription => translate b n p = []
  end.
Proof. unfold getPathsForProcedure. destruct (type (_def p)); reflexivity. Qed.

Lemma operationId_buildOperation method n (d : ProcedureDef ZodType) :
  operationId (buildOperation toJSONSchema method n d) = n.
Proof.
  unfold buildOperation.
  destruct (hd_error (inputs d)), (output d), (String.eqb method "get");
    reflexivity.
Qed.

(** An operation found in the document is the operation of a query, under
    "get", or of a mutation, under "post", at the route of that procedure. *)
Lemma operationAt_origin b (r : RouterRecord ZodType) paths k method operation :
  walk b r = Return paths ->
  operationAt paths k method = Some operation ->
  exists n p,
    In (n, p) (leaves r) /\ k = route b n /\
    translate b n p = [(k, [(method, operation)])] /\
    operationId operation = n /\
    (type (_def p) = query /\ method = "get" \/
     type (_def p) = mutation /\ method = "post").
Proof.
  intros Hw Hop. unfold operationAt in Hop.
  destruct (Obj.get paths k) as [item|] eqn:Hk; [|discriminate].
  destruct (get_walk_In toJSONSchema b r paths k item Hw Hk)
    as (n & p & Hin & Heq).
  exists n, p. pose proof (translate_cases b n p) as Hc.
  destruct (type (_def p)); rewrite Hc in Heq; try discriminate;
    injection Heq as <- <-; cbn [Obj.get] in Hop;
    match type of Hop with
    | (if ?c then _ else _) = _ => destruct c eqn:Hm; [|discriminate]
    end;
    apply String.eqb_eq in Hm; subst method; injection Hop as <-;
    rewrite Hc, operationId_buildOperation; auto 10.
Qed.

Lemma routed_leaf_present b (r : RouterRecord ZodType) paths n p :
  walk b r = Return paths ->
  In (n, p) (leaves r) -> routed p = true ->
  In (route b n) (Obj.keys paths).
Proof.
  intros Hw Hin Hr. apply walk_returns in Hw as [_ ->].
  apply ObjFacts.In_keys_assign. right.
  rewrite keys_fragments. apply in_map_iff. exists (n, p).
  split; [reflexivity|]. apply filter_In. now split.
Qed.

Lemma route_absent b (r : RouterRecord ZodType) paths n :
  walk b r = Return paths ->
  (forall q, In (n, q) (leaves r) -> routed q = false) ->
  Obj.get paths (route b n) = None.
Proof.
  intros Hw Hall. destruct (Obj.get paths (route b n)) as [item|] eqn:Hg;
    [|reflexivity].
  destruct (get_walk_In toJSONSchema b r paths _ item Hw Hg)
    as (n' & q & Hin & Heq).
  destruct (routed q) eqn:Hq.
  - destruct (translate_routed toJSONSchema b n' q Hq) as (m & _ & Heq').
    rewrite Heq' in Heq. injection Heq as Heq _.
    apply route_inj in Heq. subst n'. rewrite (Hall q Hin) in Hq. discriminate.
  - rewrite (translate_unrouted toJSONSchema b n' q Hq) in Heq. discriminate.
Qed.

(** C2: the translator answers a query with the single method "get", a
    mutation with the single method "post" and a subscription with the
    empty object; in a document every operation stands under "get" and
    comes from a query or under "post" and comes from a mutation, and the
    route of a name that only subscriptions bear is absent. *)
Theorem method_follows_kind b :
  (forall n (p : AnyProcedure ZodType),
     match type (_def p) with
     | query =>
         exists operation,
           translate b n p = [(route b n, [("get", operation)])]
     | mutation =>
         exists operation,
           translate b n p = [(route b n, [("post", operation)])]
     | subscription =>
         translate b n p = [] /\ Obj.get (translate b n p) (route b n) = None
     end) /\
  (forall (r : RouterRecord ZodType) paths,
     walk b r = Return paths ->
     (forall k method operation,
        operationAt paths k method = Some operation ->
        exists n p,
          In (n, p) (leaves r) /\ k = route b n /\
          (type (_def p) = query /\ method = "get" \/
           type (_def p) = mutation /\ method = "post")) /\
     (forall n,
        (forall q, In (n, q) (leaves r) -> type (_def q) = subscription) ->
        Obj.get paths (route b n) = None)).
Proof.
  split.
  - intros n p. pose proof (translate_cases b n p) as Hc.
    destruct (type (_def p)); rewrite Hc; eauto.
  - intros r paths Hw. split.
    + intros k method operation Hop.
      destruct (operationAt_origin b r paths k method operation Hw Hop)
        as (n & p & Hin & Hk & _ & _ & Hkind).
      now exists n, p.
    + intros n Hall. apply (route_absent b r paths n Hw).
      intros q Hq. unfold routed. now rewrite (Hall q Hq).
Qed.

(** C4: the route of a procedure named [n] under base path [b] is the
    string [b ++ "/" ++ n], whatever [b] is: the translator keys its
    fragment by it, every query or mutation of a tree has that key in the
    document, and every operation of the document stands under the base
    path, a slash and its own name. *)
Theorem route_is_literal_concatenation b :
  (forall n (p : AnyProcedure ZodType),
     routed p = true ->
     exists item, translate b n p = [((b ++ "/" ++ n)%string, item)]) /\
  (forall (r : RouterRecord ZodType) paths,
     walk b r = Return paths ->
     (forall n p,
        In (n, p) (leaves r) -> routed p = true ->
        In (b ++ "/" ++ n)%string (Obj.keys paths)) /\
     (forall k method operation,
        operationAt paths k method = Some operation ->
        k = (b ++ "/" ++ operationId operation)%string)).
Proof.
  split.
  - intros n p Hr.
    destruct (translate_routed toJSONSchema b n p Hr) as (m & _ & ->).
    eexists. reflexivity.
  - intros r paths Hw. split.
    + intros n p Hin Hr. exact (routed_leaf_present b r paths n p Hw Hin Hr).
    + intros k method operation Hop.
      destruct (operationAt_origin b r paths k method operation Hw Hop)
        as (n & p & _ & -> & _ & -> & _).
      reflexivity.
Qed.

(** C8: every route of a document holds exactly one method; when a later
    procedure writes a route an earlier one wrote, the path object of the
    later one stands there alone. *)
Theorem one_method_per_route b (r : RouterRecord ZodType) paths :
  walk b r = Return paths ->
  NoDup (Obj.keys paths) /\
  (forall k item,
     In (k, item) paths ->
     exists method operation, item = [(method, operation)]) /\
  (forall l1 n p1 l2 p2 l3 method2 operation2,
     leaves r = l1 ++ (n, p1) :: l2 ++ (n, p2) :: l3 ->
     translate b n p2 = [(route b n, [(method2, operation2)])] ->
     (forall q, In (n, q) l3 -> routed q = false) ->
     Obj.get paths (route b n) = Some [(method2, operation2)]).
Proof.
  intros Hw.
  assert (Hnd : NoDup (Obj.keys paths)).
  { destruct (walk_returns toJSONSchema b r paths Hw) as [_ ->].
    apply ObjFacts.NoDup_assign. constructor. }
  split; [exact Hnd|]. split.
  - intros k item Hin. apply (ObjFacts.In_get _ _ _ _ Hnd) in Hin.
    destruct (get_walk_In toJSONSchema b r paths k item Hw Hin)
      as (n & p & _ & Heq).
    pose proof (translate_cases b n p) as Hc.
    destruct (type (_def p)); rewrite Hc in Heq; try discriminate;
      injection Heq as _ <-; eauto.
  - intros l1 n p1 l2 p2 l3 method2 operation2 Hl Hp2 Hlast.
    apply (last_fragment_wins toJSONSchema b r paths
             (l1 ++ (n, p1) :: l2) n p2 l3); try assumption.
    rewrite Hl, <- app_assoc. reflexivity.
Qed.

End DocumentFacts.

(** ** Reordering the entries of a tree *)

Section ReorderFacts.

Context {ZodType : Type}.

Lemma hasDef_In (r : RouterRecord ZodType) :
  hasDef r = true <-> In "_def" (Obj.keys (Object_entries r)).
Proof.
  unfold hasDef.
  destruct (Obj.get (Object_entries r) "_def") eqn:Hg.
  - split; [intros _|reflexivity].
    apply ObjFacts.get_In, (in_map fst) in Hg. exact Hg.
  - apply ObjFacts.get_None_iff in Hg. split; [discriminate | tauto].
Qed.

Lemma forallb_Permutation {A : Type} (f : A -> bool) (l l' : list A) :
  Permutation l l' -> forallb f l = forallb f l'.
Proof.
  induction 1 as [|x l l' _ IH|x y l|l l' l'' _ IH1 _ IH2]; simpl.
  - reflexivity.
  - now rewrite IH.
  - destruct (f x), (f y); reflexivity.
  - now rewrite IH1.
Qed.

(** The kind of the property [_def] of a record: absent, a procedure or
    a record. *)
Lemma defKind (r : RouterRecord ZodType) :
  (hasDef r, mistaken r) =
  match Obj.get (Object_entries r) "_def" with
  | None => (false, false)
  | Some (inl _) => (true, true)
  | Some (inr _) => (true, false)
  end.
Proof.
  unfold hasDef, mistaken.
  now destruct (Obj.get (Object_entries r) "_def") as [[?|?]|].
Qed.

(** Reordering keeps the kind of [_def], so the guard answers alike. *)
Lemma reorder_defKind (r r' : RouterRecord ZodType) :
  reorder r r' -> hasDef r = hasDef r' /\ mistaken r = mistaken r'.
Proof.
  intros H.
  enough (Heq : (hasDef r, mistaken r) = (hasDef r', mistaken r'))
    by (now injection Heq).
  induction H as [es es' Hnd Hp|pre post k r r' _ _|r1 r2 r3 _ IH1 _ IH2].
  - rewrite !defKind. simpl.
    now rewrite (ObjFacts.get_Permutation _ es es' "_def" Hnd Hp).
  - rewrite !defKind. simpl. rewrite !ObjFacts.get_app. simpl.
    destruct (Obj.get pre "_def"); [reflexivity|].
    destruct (String.eqb k "_def"); reflexivity.
  - congruence.
Qed.

Lemma discriminable_app (es1 es2 : list (string * RouterEntry ZodType)) :
  discriminable (Entries (es1 ++ es2)) =
  discriminable (Entries es1) && discriminable (Entries es2).
Proof. simpl. apply forallb_app. Qed.

Lemma leaves_app (es1 es2 : list (string * RouterEntry ZodType)) :
  leaves (Entries (es1 ++ es2)) = leaves (Entries es1) ++ leaves (Entries es2).
Proof. simpl. apply flat_map_app. Qed.

Lemma reorder_discriminable (r r' : RouterRecord ZodType) :
  reorder r r' -> discriminable r = discriminable r'.
Proof.
  induction 1 as [es es' Hnd Hp|pre post k r r' Hr IH|r1 r2 r3 _ IH1 _ IH2].
  - simpl. now apply forallb_Permutation.
  - rewrite !discriminable_app, !discriminable_cons_inr.
    destruct (reorder_defKind r r' Hr) as [-> ->]. now rewrite IH.
  - congruence.
Qed.

Lemma reorder_leaves (r r' : RouterRecord ZodType) :
  reorder r r' -> Permutation (leaves r) (leaves r').
Proof.
  induction 1 as [es es' Hnd Hp|pre post k r r' Hr IH|r1 r2 r3 _ IH1 _ IH2].
  - simpl. now apply Permutation_flat_map.
  - rewrite !leaves_app, !leaves_cons_inr.
    destruct (reorder_defKind r r' Hr) as [_ ->].
    apply Permutation_app_head, Permutation_app_tail.
    destruct (mistaken r'); [constructor | exact IH].
  - now transitivity (leaves r2).
Qed.

Lemma leaves_flat (l : list (string * AnyProcedure ZodType)) :
  leaves (flat l) = l.
Proof.
  unfold flat. induction l as [|[n p] l IH]; [reflexivity|].
  simpl map. rewrite leaves_cons_inl. now rewrite IH.
Qed.

Lemma discriminable_flat (l : list (string * AnyProcedure ZodType)) :
  discriminable (flat l) = true.
Proof.
  unfold flat. induction l as [|[n p] l IH]; [reflexivity|].
  simpl map. now rewrite discriminable_cons_inl.
Qed.

End ReorderFacts.

(** ** The walk as a whole *)

Section WalkClaims.

Context {ZodType JSONSchema : Type}.
Variable toJSONSchema : ZodType -> JSONSchema.

Local Abbreviation translate := (getPathsForProcedure toJSONSchema).
Local Abbreviation walk := (getPathsForRouterRecord toJSONSchema).
Local Abbreviation fragments := (emitted toJSONSchema).

(** A one-level record never throws. *)
Lemma walk_flat b (l : list (string * AnyProcedure ZodType)) :
  walk b (flat l) = Return (Obj.assign [] (fragments b l)).
Proof. now rewrite walk_spec, discriminable_flat, leaves_flat. Qed.


Lemma walk_without_collision b (r : RouterRecord ZodType) paths :
  walk b r = Return paths -> NoDup (routes b r) ->
  paths = fragments b (leaves r).
Proof.
  intros Hw Hnd. destruct (walk_returns toJSONSchema b r paths Hw) as [_ ->].
  apply (ObjFacts.assign_disjoint _ []). simpl.
  now rewrite keys_fragments_leaves.
Qed.

(** C7: as long as no two procedures write the same route, reordering
    the entries of the tree changes neither whether the walk returns nor
    what any route maps to (the document holds the same pairs); and where
    several procedures write one route, the one processed last gives the
    route its value. *)
Theorem order_matters_only_on_collision b (r : RouterRecord ZodType) :
  (forall r',
     reorder r r' -> NoDup (routes b r) ->
     match walk b r, walk b r' with
     | Return paths, Return paths' =>
         (forall k, Obj.get paths k = Obj.get paths' k) /\
         Permutation paths paths'
     | Throw _, Throw _ => True
     | _, _ => False
     end) /\
  (forall paths l1 n p l2 item,
     walk b r = Return paths ->
     leaves r = l1 ++ (n, p) :: l2 ->
     translate b n p = [(route b n, item)] ->
     (forall q, In (n, q) l2 -> routed q = false) ->
     Obj.get paths (route b n) = Some item).
Proof.
  split.
  - intros r' Hre Hnd.
    pose proof (reorder_discriminable r r' Hre) as Hd.
    pose proof (reorder_leaves r r' Hre) as Hl.
    assert (Hfr : Permutation (fragments b (leaves r)) (fragments b (leaves r'))).
    { unfold emitted. now apply Permutation_flat_map. }
    assert (Hnd' : NoDup (routes b r')).
    { rewrite <- keys_fragments_leaves with (toJSONSchema := toJSONSchema).
      rewrite <- keys_fragments_leaves with (toJSONSchema := toJSONSchema) in Hnd.
      eapply Permutation_NoDup; [|exact Hnd].
      unfold Obj.keys. now apply Permutation_map. }
    destruct (walk b r) as [paths|e] eqn:Hw, (walk b r') as [paths'|e'] eqn:Hw'.
    + rewrite (walk_without_collision b r paths Hw Hnd).
      rewrite (walk_without_collision b r' paths' Hw' Hnd').
      split; [|exact Hfr]. intros k.
      apply ObjFacts.get_Permutation; [|exact Hfr].
      now rewrite keys_fragments_leaves.
    + apply walk_returns in Hw as [Hw _]. apply walk_throws in Hw' as [Hw' _].
      congruence.
    + apply walk_throws in Hw as [Hw _]. apply walk_returns in Hw' as [Hw' _].
      congruence.
    + exact I.
  - intros paths l1 n p l2 item Hw Hl Hp Hlast.
    exact (last_fragment_wins toJSONSchema b r paths l1 n p l2 item
             Hw Hl Hp Hlast).
Qed.

(** C6: a returned document has [openapi] "3.1.0", the given title and
    version, empty components, the walk of the tree as [paths] and none
    of the optional top-level properties; the entry point throws only
    where the walk does; and for the empty tree it returns the document
    with empty paths, whatever the base path. *)
Theorem document_shape (aTitle aVersion base : string)
  (tree : RouterRecord ZodType) :
  match trpc2OpenApi toJSONSchema
          {| apiTitle := aTitle; apiVersion := aVersion;
             basePath := base; router := {| procedures := tree |} |} with
  | Return doc =>
      openapi doc = "3.1.0" /\
      title (info doc) = aTitle /\
      version (info doc) = aVersion /\
      components doc = [] /\
      walk base tree = Return (paths doc) /\
      jsonSchemaDialect doc = None /\ servers doc = None /\
      webhooks doc = None /\ security doc = None /\
      tags doc = None /\ externalDocs doc = None
  | Throw e => walk base tree = Throw e /\ discriminable tree = false
  end /\
  trpc2OpenApi toJSONSchema
    {| apiTitle := aTitle; apiVersion := aVersion;
       basePath := base; router := {| procedures := Entries [] |} |} =
  Return {| openapi := "3.1.0";
            info := {| title := aTitle; version := aVersion |};
            paths := [];
            components := [];
            jsonSchemaDialect := None; servers := None; webhooks := None;
            security := None; tags := None; externalDocs := None |}.
Proof.
  split; [|reflexivity].
  unfold trpc2OpenApi. cbn [basePath router procedures apiTitle apiVersion].
  destruct (walk base tree) as [ps|e] eqn:Hw; cbn [bind].
  - cbn. repeat split; reflexivity.
  - split; [reflexivity|]. now apply walk_throws in Hw as [-> _].
Qed.

End WalkClaims.


(** ** The store: what the translation leaves untouched *)

Section StoreFrame.

Context {ZodType JSONSchema : Type}.
Variable toJSONSchema : ZodType -> JSONSchema.

Local Abbreviation store := (Store.store ZodType JSONSchema).
Local Abbreviation cell := (Store.cell ZodType JSONSchema).
Local Abbreviation M := (Store.M ZodType JSONSchema).

Lemma length_update (h : store) a (c : cell) :
  List.length (Store.update h a c) = List.length h.
Proof.
  revert a. induction h as [|c0 h IH]; intros [|a]; simpl; auto.
Qed.

Lemma firstn_update (h : store) a (c : cell) n :
  n <= a -> firstn n (Store.update h a c) = firstn n h.
Proof.
  revert a n. induction h as [|c0 h IH]; intros [|a] [|n] Hle; simpl;
    try reflexivity; try lia.
  f_equal. apply IH. lia.
Qed.

Lemma nth_error_update_same (h : store) a (c : cell) :
  a < List.length h -> nth_error (Store.update h a c) a = Some c.
Proof.
  revert a. induction h as [|c0 h IH]; intros [|a] Hlt; simpl in *;
    try lia; [reflexivity|].
  apply IH. lia.
Qed.

Lemma keeps_ret n {A : Type} (a : A) : keeps n (Store.ret a : M A).
Proof. intros h Hn. simpl. auto. Qed.

Lemma keeps_throw n {A : Type} e : keeps n (Store.throw e : M A).
Proof. intros h Hn. simpl. auto. Qed.

Lemma keeps_read n a : keeps n (Store.read a : M cell).
Proof.
  intros h Hn. unfold Store.read. destruct (nth_error h a); simpl; auto.
Qed.

Lemma keeps_write n a (c : cell) : n <= a -> keeps n (Store.write a c).
Proof.
  intros Hle h Hn. unfold Store.write.
  destruct (Nat.ltb a (List.length h)); simpl; [|auto].
  rewrite length_update, firstn_update by assumption. auto.
Qed.

Lemma keeps_seq n {A B : Type} (m : M A) (k : A -> M B) :
  keeps n m -> (forall a, keeps n (k a)) -> keeps n (Store.seq m k).
Proof.
  intros Hm Hk h Hn. unfold Store.seq.
  destruct (Hm h Hn) as [Hf Hl]. destruct (m h) as [[a|e] h']; simpl in *.
  - destruct (Hk a h' ltac:(lia)) as [Hf' Hl']. split; [congruence | lia].
  - auto.
Qed.

(** The address [new] returns is not below [n]. *)
Lemma keeps_new_seq n {B : Type} (c : cell) (k : Store.address -> M B) :
  (forall a, n <= a -> keeps n (k a)) -> keeps n (Store.seq (Store.new c) k).
Proof.
  intros Hk h Hn. unfold Store.seq, Store.new.
  destruct (Hk (List.length h) Hn (h ++ [c])) as [Hf Hl].
  - rewrite length_app. lia.
  - rewrite Hf, length_app in *. rewrite firstn_app.
    replace (n - List.length h) with 0 by lia.
    simpl. rewrite app_nil_r. split; [reflexivity|].
    simpl in Hl. lia.
Qed.

Lemma keeps_new n (c : cell) : keeps n (Store.new c).
Proof.
  intros h Hn. unfold Store.new. simpl. rewrite length_app, firstn_app.
  replace (n - List.length h) with 0 by lia. simpl. rewrite app_nil_r.
  split; [reflexivity | lia].
Qed.

Lemma keeps_assignOperation n a f :
  n <= a -> keeps n (Store.assignOperation a f : M unit).
Proof.
  intros Hle. unfold Store.assignOperation.
  apply keeps_seq; [apply keeps_read|]. intros [| | |o];
    auto using keeps_throw, keeps_write.
Qed.

Lemma keeps_Object_assign n target source :
  n <= target ->
  keeps n (Store.Object_assign target source : M unit).
Proof.
  intros Hle. unfold Store.Object_assign.
  apply keeps_seq; [apply keeps_read|]. intros s.
  apply keeps_seq; [apply keeps_read|]. intros t.
  destruct t, s; auto using keeps_throw, keeps_write.
Qed.

Lemma keeps_isProcedure n a :
  keeps n (Store.isProcedure a : M bool).
Proof.
  unfold Store.isProcedure.
  apply keeps_seq; [apply keeps_read|]. intros [p|props| |];
    auto using keeps_throw, keeps_ret.
  destruct (Obj.get props "_def"); auto using keeps_throw.
  apply keeps_seq; [apply keeps_read|]. intros [| | |]; apply keeps_ret.
Qed.

Lemma keeps_getPathsForProcedure n b name a :
  keeps n (Store.getPathsForProcedure toJSONSchema b name a).
Proof.
  unfold Store.getPathsForProcedure.
  apply keeps_seq; [apply keeps_read|]. intros [p|props| |];
    auto using keeps_throw.
  2:{ destruct (Obj.get props "_def"); auto using keeps_throw.
      apply keeps_seq; [apply keeps_read|]. intros _. apply keeps_new. }
  destruct (PROCEDURE_TYPE_HTTP_METHOD_MAP (type (_def p))) as [method|];
    [|apply keeps_new].
  apply keeps_new_seq. intros operation Hop.
  apply keeps_seq.
  { destruct (hd_error (inputs (_def p))); [|apply keeps_ret].
    destruct (String.eqb method "get"); now apply keeps_assignOperation. }
  intros _. apply keeps_seq.
  { destruct (output (_def p)); now apply keeps_assignOperation. }
  intros _. apply keeps_seq; [apply keeps_read|].
  intros [| | |o]; auto using keeps_throw, keeps_new.
Qed.

Lemma keeps_forEntries n visit b paths entries :
  n <= paths ->
  (forall a, keeps n (visit a)) ->
  keeps n (Store.forEntries toJSONSchema visit b paths entries).
Proof.
  intros Hle Hvisit. induction entries as [|[name a] rest IH]; simpl.
  - apply keeps_ret.
  - apply keeps_seq; [apply keeps_isProcedure|]. intros guard.
    apply keeps_seq.
    { destruct guard; [apply keeps_getPathsForProcedure | apply Hvisit]. }
    intros source. apply keeps_seq; [now apply keeps_Object_assign|].
    intros _. exact IH.
Qed.

Lemma keeps_getPathsForRouterRecord n fuel b a :
  keeps n (Store.getPathsForRouterRecord toJSONSchema fuel b a).
Proof.
  revert n a. induction fuel as [|fuel IH]; intros n a; simpl.
  - apply keeps_throw.
  - apply keeps_new_seq. intros paths Hp.
    apply keeps_seq; [apply keeps_read|]. intros [p|props| |];
      auto using keeps_throw.
    apply keeps_seq; [|intros _; apply keeps_ret].
    apply keeps_forEntries; [assumption|]. intros a'. apply IH.
Qed.

Lemma keeps_preserved {A : Type} (m : M A) (h : store) :
  keeps (List.length h) m -> Store.preserved h (snd (m h)).
Proof.
  intros Hk. destruct (Hk h (le_n _)) as [Hf _].
  unfold Store.preserved. now rewrite Hf, firstn_all.
Qed.

End StoreFrame.

(** ** The store: the walk over it computes the walk over the tree *)

Section StoreRefinement.

Context {ZodType JSONSchema : Type}.
Variable toJSONSchema : ZodType -> JSONSchema.

Local Abbreviation store := (Store.store ZodType JSONSchema).
Local Abbreviation cell := (Store.cell ZodType JSONSchema).
Local Abbreviation represents := (Store.represents (JSONSchema := JSONSchema)).

Lemma preserved_refl (h : store) : Store.preserved h h.
Proof. unfold Store.preserved. apply firstn_all. Qed.

Lemma preserved_length (h h' : store) :
  Store.preserved h h' -> List.length h <= List.length h'.
Proof.
  unfold Store.preserved. intros H.
  destruct (Nat.le_gt_cases (List.length h) (List.length h')) as [|Hgt];
    [assumption|].
  rewrite firstn_all2 in H by lia. subst. lia.
Qed.

Lemma preserved_trans (h1 h2 h3 : store) :
  Store.preserved h1 h2 -> Store.preserved h2 h3 -> Store.preserved h1 h3.
Proof.
  intros H12 H23. pose proof (preserved_length _ _ H12) as Hl.
  unfold Store.preserved in *.
  transitivity (firstn (List.length h1) (firstn (List.length h2) h3)).
  - rewrite firstn_firstn. f_equal. lia.
  - now rewrite H23.
Qed.

Lemma preserved_nth (h h' : store) a :
  Store.preserved h h' -> a < List.length h ->
  nth_error h' a = nth_error h a.
Proof.
  unfold Store.preserved. intros H Hlt.
  transitivity (nth_error (firstn (List.length h) h') a); [|now rewrite H].
  now rewrite nth_error_firstn, (proj2 (Nat.ltb_lt _ _) Hlt).
Qed.

Lemma preserved_some (h h' : store) a (c : cell) :
  Store.preserved h h' -> nth_error h a = Some c -> nth_error h' a = Some c.
Proof.
  intros Hp Hn. rewrite (preserved_nth h h' a Hp); [assumption|].
  apply nth_error_Some. congruence.
Qed.

Lemma preserved_app (h ext : store) : Store.preserved h (h ++ ext).
Proof.
  unfold Store.preserved. rewrite firstn_app, Nat.sub_diag, firstn_all.
  simpl. apply app_nil_r.
Qed.

Lemma preserved_update (h0 h : store) a (c : cell) :
  Store.preserved h0 h -> List.length h0 <= a ->
  Store.preserved h0 (Store.update h a c).
Proof.
  unfold Store.preserved. intros H Hle. now rewrite firstn_update.
Qed.

(** A tree held by a store is still held once cells are added. *)
Lemma represents_preserved (h h' : store) :
  Store.preserved h h' ->
  forall e a, represents h a e -> represents h' a e.
Proof.
  intros Hp.
  assert (Hrec : forall r a, represents h a (inr r) -> represents h' a (inr r)).
  { induction r as [es IH] using (RouterRecord_nested_ind ZodType).
    intros a Hr. inversion Hr as [|a' props es' Hn Hall]; subst.
    apply Store.represents_record with (props := props).
    - exact (preserved_some h h' a _ Hp Hn).
    - clear Hr Hn. induction Hall as [|[k d] [k' e] props es [Hk He] _ IHall].
      + constructor.
      + apply Forall_cons_iff in IH as [IHe IHes].
        constructor; [|now apply IHall]. split; [exact Hk|].
        simpl in *. destruct e as [p|nested].
        * inversion He; subst. constructor.
          now apply (preserved_some h h' d).
        * apply IHe, He. }
  intros [p|r] a Hr.
  - inversion Hr; subst. constructor. now apply (preserved_some h h' a).
  - now apply Hrec.
Qed.

Lemma seq_return {A B : Type} (m : Store.M ZodType JSONSchema A)
  (k : A -> Store.M ZodType JSONSchema B) (h h' : store) x :
  m h = (Return x, h') -> Store.seq m k h = k x h'.
Proof. unfold Store.seq. now intros ->. Qed.

Lemma seq_throw {A B : Type} (m : Store.M ZodType JSONSchema A)
  (k : A -> Store.M ZodType JSONSchema B) (h h' : store) e :
  m h = (Throw e, h') -> Store.seq m k h = (Throw e, h').
Proof. unfold Store.seq. now intros ->. Qed.

Lemma read_some (h : store) a (c : cell) :
  nth_error h a = Some c -> Store.read a h = (Return c, h).
Proof. unfold Store.read. now intros ->. Qed.

Lemma write_some (h : store) a (c0 c : cell) :
  nth_error h a = Some c0 ->
  Store.write a c h = (Return tt, Store.update h a c).
Proof.
  intros Hn. unfold Store.write.
  assert (Hlt : a < List.length h) by (apply nth_error_Some; congruence).
  now rewrite (proj2 (Nat.ltb_lt _ _) Hlt).
Qed.

Lemma nth_error_last (h : store) (c : cell) :
  nth_error (h ++ [c]) (List.length h) = Some c.
Proof. rewrite nth_error_app2, Nat.sub_diag by lia. reflexivity. Qed.

Lemma update_last (h : store) (c c' : cell) :
  Store.update (h ++ [c]) (List.length h) c' = h ++ [c'].
Proof. induction h as [|c0 h IH]; simpl; [reflexivity | now rewrite IH]. Qed.

Lemma assignOperation_last (h : store) o f :
  Store.assignOperation (List.length h) f (h ++ [Store.OperationCell _ o]) =
  (Return tt, h ++ [Store.OperationCell _ (f o)]).
Proof.
  unfold Store.assignOperation.
  rewrite (seq_return _ _ _ _ _ (read_some _ _ _ (nth_error_last h _))).
  rewrite (write_some _ _ _ _ (nth_error_last h _)). now rewrite update_last.
Qed.

(** The translator over the store allocates, assigns to what it allocated
    and returns the address of a paths object equal to the fragment. *)
Lemma store_getPathsForProcedure b n a p (h : store) :
  nth_error h a = Some (Store.ProcedureCell _ p) ->
  exists src ext,
    Store.getPathsForProcedure toJSONSchema b n a h = (Return src, h ++ ext) /\
    nth_error (h ++ ext) src =
    Some (Store.PathsCell _ (getPathsForProcedure toJSONSchema b n p)).
Proof.
  intros Hn. unfold Store.getPathsForProcedure, getPathsForProcedure.
  rewrite (seq_return _ _ _ _ _ (read_some _ _ _ Hn)).
  destruct (PROCEDURE_TYPE_HTTP_METHOD_MAP (type (_def p))) as [method|].
  - unfold Store.seq at 1. unfold Store.new at 1.
    unfold buildOperation.
    set (o0 := {| operationId := n; parameters := None;
                  requestBody := None; responses := None |}).
    assert (Hstep : forall f o (k : unit -> Store.M ZodType JSONSchema Store.address),
               Store.seq (Store.assignOperation (List.length h) f) k
                 (h ++ [Store.OperationCell _ o]) =
               k tt (h ++ [Store.OperationCell _ (f o)])).
    { intros f o k. apply seq_return, assignOperation_last. }
    assert (Hfin : forall o,
               Store.seq (Store.read (List.length h))
                 (fun c' => match c' with
                            | Store.OperationCell _ o' =>
                                Store.new (Store.PathsCell _
                                             [(route b n, [(method, o')])])
                            | _ => Store.throw Store.Stuck
                            end)
                 (h ++ [Store.OperationCell _ o]) =
               (Return (S (List.length h)),
                h ++ [Store.OperationCell _ o;
                      Store.PathsCell _ [(route b n, [(method, o)])]])).
    { intros o.
      rewrite (seq_return _ _ _ _ _ (read_some _ _ _ (nth_error_last h _))).
      unfold Store.new. rewrite length_app, <- app_assoc. simpl.
      now rewrite Nat.add_1_r. }
    assert (Hlast : forall o (c : cell),
               nth_error (h ++ [Store.OperationCell _ o; c]) (S (List.length h)) =
               Some c).
    { intros o c. rewrite nth_error_app2 by lia.
      replace (S (List.length h) - List.length h) with 1 by lia. reflexivity. }
    destruct (hd_error (inputs (_def p))) as [input0|];
      [destruct (String.eqb method "get")|];
      destruct (output (_def p)) as [out|];
      repeat first [rewrite Hstep
                   | rewrite (seq_return _ _ (h ++ [Store.OperationCell _ o0])
                                (h ++ [Store.OperationCell _ o0]) tt eq_refl)];
      rewrite Hfin; eexists _, _; (split; [reflexivity | apply Hlast]).
  - exists (List.length h), [Store.PathsCell _ []].
    split; [reflexivity | apply nth_error_last].
Qed.

Lemma get_represented (h : store) props (entries : list (string * RouterEntry ZodType)) k :
  Forall2 (fun kp ke => fst kp = fst ke /\ represents h (snd kp) (snd ke))
          props entries ->
  match Obj.get props k, Obj.get entries k with
  | Some d, Some e => represents h d e
  | None, None => True
  | _, _ => False
  end.
Proof.
  induction 1 as [|[k1 d] [k2 e] props entries [Hk He] _ IH]; simpl in *.
  - exact I.
  - subst k2. destruct (String.eqb k1 k); [exact He | exact IH].
Qed.

Lemma represents_cell (h : store) a (e : RouterEntry ZodType) :
  represents h a e -> exists c, nth_error h a = Some c.
Proof. intros H. inversion H; eauto. Qed.

(** The type guard over the store answers as the guard over the tree. *)
Lemma store_isProcedure (h : store) a (e : RouterEntry ZodType) :
  represents h a e ->
  Store.isProcedure a h = (isProcedure e, h).
Proof.
  intros Hr. unfold Store.isProcedure.
  inversion Hr as [a' p Hn|a' props entries Hn Hall]; subst.
  - rewrite (seq_return _ _ _ _ _ (read_some _ _ _ Hn)). reflexivity.
  - rewrite (seq_return _ _ _ _ _ (read_some _ _ _ Hn)).
    rewrite isProcedure_inr. unfold hasDef, mistaken. simpl Object_entries.
    pose proof (get_represented h props entries "_def" Hall) as Hg.
    destruct (Obj.get props "_def") as [d|], (Obj.get entries "_def") as [e|];
      try contradiction; [|reflexivity].
    inversion Hg as [d' p Hd|d' props' entries' Hd _]; subst;
      now rewrite (seq_return _ _ _ _ _ (read_some _ _ _ Hd)).
Qed.

(** On a record the guard takes for a procedure the translator over the
    store allocates the empty paths object. *)
Lemma store_getPathsForProcedure_mistaken b n a r (h : store) :
  represents h a (inr r) -> mistaken r = true ->
  Store.getPathsForProcedure toJSONSchema b n a h =
  (Return (List.length h), h ++ [Store.PathsCell _ []]).
Proof.
  intros Hr Hm. unfold Store.getPathsForProcedure.
  inversion Hr as [|a' props entries Hn Hall]; subst.
  rewrite (seq_return _ _ _ _ _ (read_some _ _ _ Hn)).
  unfold mistaken in Hm. simpl in Hm.
  pose proof (get_represented h props entries "_def" Hall) as Hg.
  destruct (Obj.get props "_def") as [d|], (Obj.get entries "_def") as [[p|r']|];
    try contradiction; try discriminate.
  destruct (represents_cell h d _ Hg) as [c Hc].
  now rewrite (seq_return _ _ _ _ _ (read_some _ _ _ Hc)).
Qed.

Lemma store_Object_assign (h : store) target source t s :
  nth_error h target = Some (Store.PathsCell _ t) ->
  nth_error h source = Some (Store.PathsCell _ s) ->
  Store.Object_assign target source h =
  (Return tt, Store.update h target (Store.PathsCell _ (Obj.assign t s))).
Proof.
  intros Ht Hs. unfold Store.Object_assign.
  rewrite (seq_return _ _ _ _ _ (read_some _ _ _ Hs)).
  rewrite (seq_return _ _ _ _ _ (read_some _ _ _ Ht)).
  exact (write_some _ _ _ _ Ht).
Qed.

Lemma store_forEntries b visit (h0 : store) paths :
  List.length h0 <= paths ->
  (forall n a, keeps n (visit a)) ->
  forall props (entries : list (string * RouterEntry ZodType)),
    Forall2 (fun kp ke => fst kp = fst ke /\ represents h0 (snd kp) (snd ke))
            props entries ->
    Forall (below (fun nested =>
                     forall a (h : store),
                       represents h a (inr nested) ->
                       computes toJSONSchema b nested (visit a) h)) entries ->
    forall acc (h : store),
      Store.preserved h0 h ->
      nth_error h paths = Some (Store.PathsCell _ acc) ->
      match loop toJSONSchema b entries acc with
      | Return res =>
          exists h',
            Store.forEntries toJSONSchema visit b paths props h = (Return tt, h') /\
            nth_error h' paths = Some (Store.PathsCell _ res)
      | Throw e =>
          exists h',
            Store.forEntries toJSONSchema visit b paths props h = (Throw e, h')
      end.
Proof.
  intros Hpaths Hvisit props entries Hall.
  induction Hall as [|[k1 d] [k2 e] props entries [Hk He] _ IH];
    intros Hbelow acc h Hp Hacc.
  - exists h. split; [reflexivity | exact Hacc].
  - simpl in Hk, He. subst k2.
    apply Forall_cons_iff in Hbelow as [Hnested Hbelow].
    specialize (IH Hbelow).
    pose proof (represents_preserved h0 h Hp e d He) as He'.
    pose proof (store_isProcedure h d e He') as Hguard.
    destruct e as [p|nested].
    + (* a procedure: translate, assign, go on *)
      inversion He' as [a' p' Hn|]; subst.
      destruct (store_getPathsForProcedure b k1 d p h Hn)
        as (src & ext & Hrun & Hsrc).
      assert (Hacc1 : nth_error (h ++ ext) paths = Some (Store.PathsCell _ acc))
        by exact (preserved_some _ _ _ _ (preserved_app h ext) Hacc).
      assert (Hstep :
                Store.forEntries toJSONSchema visit b paths ((k1, d) :: props) h =
                Store.forEntries toJSONSchema visit b paths props
                  (Store.update (h ++ ext) paths
                     (Store.PathsCell _
                        (Obj.assign acc (getPathsForProcedure toJSONSchema b k1 p))))).
      { cbn [Store.forEntries].
        rewrite (seq_return _ _ _ _ _ Hguard).
        rewrite (seq_return _ _ _ _ _ Hrun).
        now rewrite (seq_return _ _ _ _ _
                       (store_Object_assign _ _ _ _ _ Hacc1 Hsrc)). }
      rewrite Hstep. cbn [loop]. rewrite isProcedure_inl. cbn [bind].
      apply IH.
      * apply preserved_update; [|assumption].
        exact (preserved_trans _ _ _ Hp (preserved_app h ext)).
      * apply nth_error_update_same, nth_error_Some. congruence.
    + (* a nested record: guard, visit, assign, go on *)
      cbn [loop]. rewrite isProcedure_inr in Hguard |- *.
      destruct (hasDef nested); cbn [bind].
      2:{ exists h. cbn [Store.forEntries].
          now rewrite (seq_throw _ _ _ _ _ Hguard). }
      destruct (mistaken nested) eqn:Hm.
      { (* taken for a procedure: the empty object is assigned *)
        rewrite (getPathsForProcedureOnRecord_mistaken nested Hm). cbn [bind].
        pose proof (store_getPathsForProcedure_mistaken b k1 d nested h He' Hm)
          as Hrun.
        set (ext := [Store.PathsCell ZodType (@nil (string * PathItemObject JSONSchema))]) in *.
        assert (Hsrc : nth_error (h ++ ext) (List.length h) =
                       Some (Store.PathsCell _ []))
          by apply nth_error_last.
        assert (Hacc1 : nth_error (h ++ ext) paths = Some (Store.PathsCell _ acc))
          by exact (preserved_some _ _ _ _ (preserved_app h ext) Hacc).
        assert (Hstep :
                  Store.forEntries toJSONSchema visit b paths ((k1, d) :: props) h =
                  Store.forEntries toJSONSchema visit b paths props
                    (Store.update (h ++ ext) paths
                       (Store.PathsCell _ (Obj.assign acc [])))).
        { cbn [Store.forEntries].
          rewrite (seq_return _ _ _ _ _ Hguard).
          rewrite (seq_return _ _ _ _ _ Hrun).
          now rewrite (seq_return _ _ _ _ _
                         (store_Object_assign _ _ _ _ _ Hacc1 Hsrc)). }
        rewrite Hstep. apply IH.
        - apply preserved_update; [|assumption].
          exact (preserved_trans _ _ _ Hp (preserved_app h ext)).
        - apply nth_error_update_same, nth_error_Some. congruence. }
      unfold below in Hnested; cbn [snd] in Hnested.
      specialize (Hnested d h He'). unfold computes in Hnested.
      assert (Hp1 : Store.preserved h (snd (visit d h))).
      { apply keeps_preserved, Hvisit. }
      destruct (visit d h) as [res h1] eqn:Hrun. simpl in Hnested, Hp1.
      destruct (getPathsForRouterRecord toJSONSchema b nested) as [ps|e];
        cbn [bind].
      * destruct Hnested as (pa & -> & Hpa).
        assert (Hacc1 : nth_error h1 paths = Some (Store.PathsCell _ acc))
          by exact (preserved_some _ _ _ _ Hp1 Hacc).
        assert (Hstep :
                  Store.forEntries toJSONSchema visit b paths ((k1, d) :: props) h =
                  Store.forEntries toJSONSchema visit b paths props
                    (Store.update h1 paths
                       (Store.PathsCell _ (Obj.assign acc ps)))).
        { cbn [Store.forEntries].
          rewrite (seq_return _ _ _ _ _ Hguard).
          rewrite (seq_return _ _ _ _ _ Hrun).
          now rewrite (seq_return _ _ _ _ _
                         (store_Object_assign _ _ _ _ _ Hacc1 Hpa)). }
        rewrite Hstep. apply IH.
        -- apply preserved_update; [|assumption].
           exact (preserved_trans _ _ _ Hp Hp1).
        -- apply nth_error_update_same, nth_error_Some. congruence.
      * subst res. exists h1. cbn [Store.forEntries].
        rewrite (seq_return _ _ _ _ _ Hguard).
        now rewrite (seq_throw _ _ _ _ _ Hrun).
Qed.

Lemma depth_entry fuel (entries : list (string * RouterEntry ZodType)) :
  Store.depth (Entries entries) <= S fuel ->
  Forall (below (fun nested => Store.depth nested <= fuel)) entries.
Proof.
  simpl. intros H. apply le_S_n in H.
  induction entries as [|[k [p|nested]] entries IH]; simpl in *.
  - constructor.
  - constructor; [exact I | now apply IH].
  - constructor; [unfold below; simpl; lia | apply IH; lia].
Qed.

(** With fuel for the depth of the tree, the walk over the store returns
    a paths object equal to the walk over the tree, or throws what that
    walk throws. *)
Theorem store_walk_computes b (r : RouterRecord ZodType) :
  forall fuel a (h : store),
    represents h a (inr r) -> Store.depth r <= fuel ->
    computes toJSONSchema b r (Store.getPathsForRouterRecord toJSONSchema fuel b a) h.
Proof.
  induction r as [es IH] using (RouterRecord_nested_ind ZodType).
  intros [|fuel] a h Hr Hd; [simpl in Hd; lia|].
  inversion Hr as [|a' props es' Hn Hall]; subst.
  apply depth_entry in Hd.
  assert (Hbelow : Forall (below (fun nested =>
                     forall a (h : store),
                       represents h a (inr nested) ->
                       computes toJSONSchema b nested
                         (Store.getPathsForRouterRecord toJSONSchema fuel b a) h))
                     es).
  { clear - IH Hd. induction es as [|[k [p|nested]] es IHes].
    - constructor.
    - apply Forall_cons_iff in IH as [_ IH], Hd as [_ Hd].
      constructor; [exact I | now apply IHes].
    - apply Forall_cons_iff in IH as [IHn IH], Hd as [Hdn Hd].
      constructor; [|now apply IHes].
      unfold below in *; simpl in *. intros a h Hr. now apply IHn. }
  set (h1 := h ++ [Store.PathsCell ZodType []]).
  assert (Hacc : nth_error h1 (List.length h) = Some (Store.PathsCell _ []))
    by apply nth_error_last.
  pose proof (store_forEntries b
                (Store.getPathsForRouterRecord toJSONSchema fuel b)
                h (List.length h) (le_n _)
                (fun n a => keeps_getPathsForRouterRecord toJSONSchema n fuel b a)
                props es Hall Hbelow [] h1 (preserved_app h _) Hacc) as Hloop.
  assert (Hread : nth_error h1 a = Some (Store.RecordCell _ _ props))
    by exact (preserved_some _ _ _ _ (preserved_app h _) Hn).
  assert (Hstep :
            Store.getPathsForRouterRecord toJSONSchema (S fuel) b a h =
            Store.seq (Store.forEntries toJSONSchema
                         (Store.getPathsForRouterRecord toJSONSchema fuel b)
                         b (List.length h) props)
                      (fun _ => Store.ret (List.length h)) h1).
  { cbn [Store.getPathsForRouterRecord].
    unfold Store.seq at 1. unfold Store.new at 1. fold h1.
    now rewrite (seq_return _ _ _ _ _ (read_some _ _ _ Hread)). }
  unfold computes. rewrite loop_eq, Hstep.
  destruct (loop toJSONSchema b es []) as [res|e].
  - destruct Hloop as (h' & Hfor & Hres).
    rewrite (seq_return _ _ _ _ _ Hfor). simpl. eauto.
  - destruct Hloop as (h' & Hfor).
    now rewrite (seq_throw _ _ _ _ _ Hfor).
Qed.

(** C10: run on any two stores that hold the same tree, with the same
    title, version and base path, the entry point returns the same
    document, the one [trpc2OpenApi] computes from the tree, or throws
    the same error; and every cell the stores held before, the tree's
    among them, is left as it was. *)
Theorem translation_is_pure (aTitle aVersion base : string)
  (tree : RouterRecord ZodType) fuel (h1 h2 : store) a1 a2 :
  represents h1 a1 (inr tree) ->
  represents h2 a2 (inr tree) ->
  Store.depth tree <= fuel ->
  fst (Store.trpc2OpenApi toJSONSchema fuel aTitle aVersion base a1 h1) =
  trpc2OpenApi toJSONSchema
    {| apiTitle := aTitle; apiVersion := aVersion; basePath := base;
       router := {| procedures := tree |} |} /\
  fst (Store.trpc2OpenApi toJSONSchema fuel aTitle aVersion base a1 h1) =
  fst (Store.trpc2OpenApi toJSONSchema fuel aTitle aVersion base a2 h2) /\
  Store.preserved h1
    (snd (Store.trpc2OpenApi toJSONSchema fuel aTitle aVersion base a1 h1)) /\
  Store.preserved h2
    (snd (Store.trpc2OpenApi toJSONSchema fuel aTitle aVersion base a2 h2)) /\
  represents
    (snd (Store.trpc2OpenApi toJSONSchema fuel aTitle aVersion base a1 h1))
    a1 (inr tree).
Proof.
  intros Hr1 Hr2 Hd.
  assert (Hrun : forall (h : store) a,
             represents h a (inr tree) ->
             fst (Store.trpc2OpenApi toJSONSchema fuel aTitle aVersion base a h) =
             trpc2OpenApi toJSONSchema
               {| apiTitle := aTitle; apiVersion := aVersion; basePath := base;
                  router := {| procedures := tree |} |}).
  { intros h a Hr.
    pose proof (store_walk_computes base tree fuel a h Hr Hd) as Hc.
    unfold computes in Hc. unfold Store.trpc2OpenApi, trpc2OpenApi.
    cbn [basePath router procedures apiTitle apiVersion].
    destruct (Store.getPathsForRouterRecord toJSONSchema fuel base a h)
      as [res h'] eqn:Hw.
    simpl in Hc.
    destruct (getPathsForRouterRecord toJSONSchema base tree) as [ps|e].
    - destruct Hc as (pa & -> & Hpa).
      rewrite (seq_return _ _ _ _ _ Hw).
      rewrite (seq_return _ _ _ _ _ (read_some _ _ _ Hpa)). reflexivity.
    - subst res. now rewrite (seq_throw _ _ _ _ _ Hw). }
  assert (Hkeep : forall (h : store) a,
             Store.preserved h
               (snd (Store.trpc2OpenApi toJSONSchema fuel aTitle aVersion base a h))).
  { intros h a. apply keeps_preserved. unfold Store.trpc2OpenApi.
    apply keeps_seq; [apply keeps_getPathsForRouterRecord|].
    intros pa. apply keeps_seq; [apply keeps_read|].
    intros [| |ps|]; auto using keeps_throw, keeps_ret. }
  split; [now apply Hrun|]. split; [now rewrite !Hrun|].
  split; [apply Hkeep|]. split; [apply Hkeep|].
  exact (represents_preserved _ _ (Hkeep h1 a1) _ _ Hr1).
Qed.

End StoreRefinement.

(** * The theorems at work on the example trees *)

Section Witnesses.

Import Example.

Local Abbreviation translate := (getPathsForProcedure toJSONSchema).
Local Abbreviation walk := (getPathsForRouterRecord toJSONSchema).

(** [greeting] declares output 2: its 200 response wraps the conversion
    of 2 in the envelope. *)
Lemma success_response_envelope_witness :
  routed greeting = true /\
  exists method operation,
    translate "/trpc" "greeting" greeting =
    [("/trpc/greeting", [(method, operation)])] /\
    response200 operation =
    Some {| description := "Successful response";
            content :=
              Some [("application/json",
                     {| schema :=
                          Schema "object"
                            [("result",
                              Schema "object"
                                [("data", OfJSONSchema (Converted 2))]
                                ["data"])]
                            ["result"] |})] |}.
Proof.
  split; [reflexivity|].
  exact (success_response_envelope toJSONSchema "/trpc" "greeting" greeting
           eq_refl).
Defined.

(** [greeting] is a query with input 1: one parameter, no body. *)
Lemma input_becomes_parameter_or_body_witness :
  routed greeting = true /\
  exists method operation,
    translate "/trpc" "greeting" greeting =
    [("/trpc/greeting", [(method, operation)])] /\
    method = "get" /\
    parameters operation =
      Some [{| name := "input"; in_ := "query";
               param_content :=
                 [("application/json",
                   {| schema := OfJSONSchema (Converted 1) |})] |}] /\
    requestBody operation = None.
Proof.
  split; [reflexivity|].
  exact (input_becomes_parameter_or_body toJSONSchema "/trpc" "greeting"
           greeting eq_refl).
Defined.

(** [createUser] declares the inputs 3, 4 and 5: the body carries the
    conversion of 3 alone. *)
Lemma only_first_input_is_used_witness :
  mutation <> subscription /\
  translate "/trpc" "createUser" createUser =
  translate "/trpc" "createUser" (procedure mutation [3] None) /\
  exists method operation,
    translate "/trpc" "createUser" createUser =
    [("/trpc/createUser", [(method, operation)])] /\
    inputSchemas operation = [OfJSONSchema (Converted 3)].
Proof.
  assert (H : mutation <> subscription) by discriminate.
  split; [exact H|].
  exact (only_first_input_is_used toJSONSchema "/trpc" "createUser"
           mutation 3 [4; 5] None H).
Defined.

(** In the document of [{ onMessage, greeting }] the route of the
    subscription is absent. *)
Lemma method_follows_kind_witness :
  walk "/trpc" chat =
  Return [("/trpc/greeting",
           [("get", buildOperation toJSONSchema "get" "greeting" (_def greeting))])] /\
  Obj.get [("/trpc/greeting",
            [("get", buildOperation toJSONSchema "get" "greeting" (_def greeting))])]
          "/trpc/onMessage" = None.
Proof.
  split; [reflexivity|].
  refine (proj2 (proj2 (method_follows_kind toJSONSchema "/trpc")
                   chat _ eq_refl) "onMessage" _).
  intros q [H|[H|[]]].
  - injection H as <-. reflexivity.
  - discriminate H.
Defined.

(** The two base paths of the test suite, empty and without a leading
    slash, and one that ends in a slash: nothing is added or removed. *)
Lemma route_is_literal_concatenation_witness :
  (exists item, translate "" "test" health = [("/test", item)]) /\
  (exists item, translate "api" "test" health = [("api/test", item)]) /\
  (exists item, translate "/api/" "test" health = [("/api//test", item)]).
Proof.
  repeat split.
  - exact (proj1 (route_is_literal_concatenation toJSONSchema "")
             "test" health eq_refl).
  - exact (proj1 (route_is_literal_concatenation toJSONSchema "api")
             "test" health eq_refl).
  - exact (proj1 (route_is_literal_concatenation toJSONSchema "/api/")
             "test" health eq_refl).
Defined.

(** In [{ status, ops: { _def: { _def }, status } }] the mutation is
    processed after the query: the route holds "post" alone. *)
Lemma one_method_per_route_witness :
  walk "" clash =
  Return [("/status",
           [("post", buildOperation toJSONSchema "post" "status" (_def reset))])] /\
  Obj.get [("/status",
            [("post", buildOperation toJSONSchema "post" "status" (_def reset))])]
          "/status" =
  Some [("post", buildOperation toJSONSchema "post" "status" (_def reset))].
Proof.
  split; [reflexivity|].
  refine (proj2 (proj2 (one_method_per_route toJSONSchema "" clash _ eq_refl))
            [] "status" health [] reset []
            "post" _ eq_refl eq_refl _).
  intros q [].
Defined.

(** [{ health, createUser }] in both orders: the same value at every
    route; and in [clash] the mutation, processed last, wins. *)
Lemma order_matters_only_on_collision_witness :
  (reorder admin admin' /\
   NoDup (routes "/api" admin) /\
   exists paths paths',
     walk "/api" admin = Return paths /\
     walk "/api" admin' = Return paths' /\
     forall k, Obj.get paths k = Obj.get paths' k) /\
  (leaves clash = [("status", health)] ++ [("status", reset)] /\
   walk "" clash =
     Return [("/status",
              [("post", buildOperation toJSONSchema "post" "status" (_def reset))])] /\
   Obj.get [("/status",
             [("post", buildOperation toJSONSchema "post" "status" (_def reset))])]
           "/status" =
   Some [("post", buildOperation toJSONSchema "post" "status" (_def reset))]).
Proof.
  assert (Hre : reorder admin admin').
  { apply reorder_here; [|apply perm_swap].
    repeat constructor; simpl; intuition discriminate. }
  assert (Hnd : NoDup (routes "/api" admin))
    by (repeat constructor; simpl; intuition discriminate).
  split.
  - split; [exact Hre|]. split; [exact Hnd|].
    eexists _, _. split; [reflexivity|]. split; [reflexivity|].
    exact (proj1 (proj1 (order_matters_only_on_collision toJSONSchema
                           "/api" admin) admin' Hre Hnd)).
  - split; [reflexivity|]. split; [reflexivity|].
    refine (proj2 (order_matters_only_on_collision toJSONSchema "" clash)
              _ [("status", health)] "status" reset []
              _ eq_refl eq_refl eq_refl _).
    intros q [].
Defined.

(** Where two procedures write one route the order of the entries does
    show: [clash] and [clash'] differ in their order alone and disagree
    on the method of "/status". *)
Example collision_order_shows :
  reorder clash clash' /\
  walk "" clash =
  Return [("/status",
           [("post", buildOperation toJSONSchema "post" "status" (_def reset))])] /\
  walk "" clash' =
  Return [("/status",
           [("get", buildOperation toJSONSchema "get" "status" (_def health))])].
Proof.
  split; [|split; reflexivity].
  apply reorder_here; [|apply perm_swap].
  repeat constructor; simpl; intuition discriminate.
Qed.



(** The scenario of the README: [{ greeting }] under "/trpc". *)
Example greeting_document :
  trpc2OpenApi toJSONSchema (options "/trpc" hello) =
  Return
    {| openapi := "3.1.0";
       info := {| title := "Test API"; version := "1.0.0" |};
       paths :=
         [("/trpc/greeting",
           [("get",
             {| operationId := "greeting";
                parameters :=
                  Some [{| name := "input"; in_ := "query";
                           param_content :=
                             [("application/json",
                               {| schema := OfJSONSchema (Converted 1) |})] |}];
                requestBody := None;
                responses :=
                  Some [("200",
                         {| description := "Successful response";
                            content :=
                              Some [("application/json",
                                     {| schema :=
                                          Schema "object"
                                            [("result",
                                              Schema "object"
                                                [("data", OfJSONSchema (Converted 2))]
                                                ["data"])]
                                            ["result"] |})] |})] |})])];
       components := [];
       jsonSchemaDialect := None; servers := None; webhooks := None;
       security := None; tags := None; externalDocs := None |}.
Proof. reflexivity. Qed.

(** Two stores that hold [{ greeting }] at different places: the same
    document from both, and [store1] as it was. *)
Lemma translation_is_pure_witness :
  Store.represents (JSONSchema := Json) store1 1 (inr hello) /\
  Store.represents (JSONSchema := Json) store2 1 (inr hello) /\
  Store.depth hello <= 1 /\
  fst (Store.trpc2OpenApi toJSONSchema 1 "Test API" "1.0.0" "/trpc" 1 store1) =
  fst (Store.trpc2OpenApi toJSONSchema 1 "Test API" "1.0.0" "/trpc" 1 store2) /\
  Store.preserved store1
    (snd (Store.trpc2OpenApi toJSONSchema 1 "Test API" "1.0.0" "/trpc" 1 store1)).
Proof.
  assert (R1 : Store.represents (JSONSchema := Json) store1 1 (inr hello)).
  { apply Store.represents_record with (props := [("greeting", 0)]);
      [reflexivity|].
    repeat constructor. }
  assert (R2 : Store.represents (JSONSchema := Json) store2 1 (inr hello)).
  { apply Store.represents_record with (props := [("greeting", 2)]);
      [reflexivity|].
    repeat constructor. }
  destruct (translation_is_pure toJSONSchema "Test API" "1.0.0" "/trpc"
              hello 1 store1 store2 1 1 R1 R2 (le_n 1))
    as (_ & Heq & Hp & _).
  repeat split; try assumption. apply le_n.
Defined.

End Witnesses.

(** * Further properties of the translation *)

Section GuardAndWalk.

Context {ZodType JSONSchema : Type}.
Variable toJSONSchema : ZodType -> JSONSchema.

Local Abbreviation translate := (getPathsForProcedure toJSONSchema).
Local Abbreviation walk := (getPathsForRouterRecord toJSONSchema).
Local Abbreviation fragments := (emitted toJSONSchema).


(** A tree in which the walk reaches a nested record without a property
    [_def] gives no paths object, whatever the base path and whatever the
    conversion of schemas: a walk that returns has found [_def] on every
    record it was to enter. *)
Theorem walk_returns_only_with_def (r : RouterRecord ZodType) :
  discriminable r = false ->
  forall b (other : ZodType -> JSONSchema) paths,
    getPathsForRouterRecord other b r <> Return paths.
Proof.
  intros H b other paths Hw. apply walk_returns in Hw as [Hd _].
  congruence.
Qed.


(** The walk of a record is the walk of its first entries merged, by
    [Object.assign], with the walk of the entries after them. *)
Theorem walk_of_concatenation b (es1 es2 : list (string * RouterEntry ZodType)) :
  walk b (Entries (es1 ++ es2)) =
  (paths1 <- walk b (Entries es1) ;;
   paths2 <- walk b (Entries es2) ;;
   Return (Obj.assign paths1 paths2)).
Proof.
  rewrite !walk_spec, discriminable_app, leaves_app, emitted_app.
  destruct (discriminable (Entries es1)); [|reflexivity]. cbn [andb bind].
  destruct (discriminable (Entries es2)); [|reflexivity]. cbn [bind].
  rewrite ObjFacts.assign_app, ObjFacts.assign_assoc by constructor.
  reflexivity.
Qed.

Lemma fragments_routed b (l : list (string * AnyProcedure ZodType)) :
  fragments b (filter (fun np => routed (snd np)) l) = fragments b l.
Proof.
  induction l as [|[n p] l IH]; [reflexivity|].
  simpl filter. destruct (routed p) eqn:Hr.
  - now rewrite !emitted_cons, IH.
  - now rewrite emitted_cons, (translate_unrouted toJSONSchema b n p Hr), IH.
Qed.

(** Subscriptions leave no trace: a one-level record gives the document
    it gives once its subscriptions are taken out. *)
Theorem subscriptions_leave_no_trace b (l : list (string * AnyProcedure ZodType)) :
  walk b (flat l) = walk b (flat (filter (fun np => routed (snd np)) l)).
Proof. now rewrite !walk_flat, fragments_routed. Qed.

Lemma NoDup_flat_routes b (l : list (string * AnyProcedure ZodType)) :
  NoDup (map fst l) -> NoDup (Obj.keys (fragments b l)).
Proof.
  intros Hnd. rewrite keys_fragments.
  induction l as [|[n p] l IH]; simpl in *; [constructor|].
  apply NoDup_cons_iff in Hnd as [Hn Hnd].
  destruct (routed p); [|now apply IH].
  simpl. constructor; [|now apply IH].
  rewrite in_map_iff. intros ([n' q] & Heq & Hin). simpl in Heq.
  apply route_inj in Heq. subst n'. apply filter_In in Hin as [Hin _].
  apply Hn. now apply (in_map fst) in Hin.
Qed.

(** A one-level record of procedures with distinct names, which is what
    a JavaScript object of procedures is: in the document the entry
    point returns for it, the paths are the fragments of the queries and
    mutations one after the other, in the order of the record, one route
    for each. *)
Theorem flat_router_document aTitle aVersion base
  (l : list (string * AnyProcedure ZodType)) doc :
  NoDup (map fst l) ->
  trpc2OpenApi toJSONSchema
    {| apiTitle := aTitle; apiVersion := aVersion; basePath := base;
       router := {| procedures := flat l |} |} = Return doc ->
  paths doc = fragments base l /\
  Obj.keys (paths doc) =
    map (fun np => (base ++ "/" ++ fst np)%string)
        (filter (fun np => routed (snd np)) l) /\
  List.length (paths doc) =
    List.length (filter (fun np => routed (snd np)) l).
Proof.
  intros Hnd. unfold trpc2OpenApi.
  cbn [basePath router procedures apiTitle apiVersion].
  rewrite walk_flat. cbn [bind]. intros [= <-].
  cbn [paths].
  assert (Heq : Obj.assign [] (fragments base l) = fragments base l).
  { apply (ObjFacts.assign_disjoint _ []). now apply NoDup_flat_routes. }
  rewrite Heq. split; [reflexivity|]. split.
  - apply keys_fragments.
  - transitivity (List.length (Obj.keys (fragments base l))).
    + unfold Obj.keys. now rewrite length_map.
    + now rewrite keys_fragments, length_map.
Qed.

End GuardAndWalk.

Section OperationShape.

Context {ZodType JSONSchema : Type}.
Variable toJSONSchema : ZodType -> JSONSchema.

Local Abbreviation translate := (getPathsForProcedure toJSONSchema).
Local Abbreviation walk := (getPathsForRouterRecord toJSONSchema).

Lemma responses_buildOperation method n (d : ProcedureDef ZodType) :
  exists body,
    responses (buildOperation toJSONSchema method n d) =
    Some [("200", {| description := "Successful response"; content := body |})].
Proof.
  unfold buildOperation. destruct (output d); eexists; reflexivity.
Qed.

(** Every operation of a returned document documents the status 200 and
    no other: its responses hold the single key "200", described as
    "Successful response"; and it never has parameters and a request body
    at once. *)
Theorem only_the_success_response b (r : RouterRecord ZodType) paths :
  walk b r = Return paths ->
  forall k method operation,
    operationAt paths k method = Some operation ->
    (exists body,
       responses operation =
       Some [("200", {| description := "Successful response";
                        content := body |})]) /\
    (parameters operation = None \/ requestBody operation = None).
Proof.
  intros Hw k method operation Hop.
  destruct (operationAt_origin toJSONSchema b r paths k method operation Hw Hop)
    as (n & p & _ & _ & Heq & _ & _).
  pose proof (translate_cases toJSONSchema b n p) as Hc.
  destruct (type (_def p)); rewrite Hc in Heq; try discriminate;
    injection Heq as _ _ <-;
    (split; [apply responses_buildOperation|]);
    unfold buildOperation;
    destruct (hd_error (inputs (_def p))), (output (_def p)); cbn; auto.
Qed.

(** Input and output are handled apart: the 200 response of an operation
    is fixed by the declared output alone, whatever the kind, the name
    and the inputs; parameters and request body are fixed by the kind and
    the first input alone, whatever the output. *)
Theorem input_and_output_are_independent b n n' (p q : AnyProcedure ZodType)
  m operation m' operation' :
  translate b n p = [(route b n, [(m, operation)])] ->
  translate b n' q = [(route b n', [(m', operation')])] ->
  (output (_def p) = output (_def q) ->
   responses operation = responses operation') /\
  (type (_def p) = type (_def q) ->
   hd_error (inputs (_def p)) = hd_error (inputs (_def q)) ->
   parameters operation = parameters operation' /\
   requestBody operation = requestBody operation').
Proof.
  intros Hp Hq.
  pose proof (translate_cases toJSONSchema b n p) as Hcp.
  pose proof (translate_cases toJSONSchema b n' q) as Hcq.
  destruct (type (_def p)) eqn:Tp; rewrite Hcp in Hp; try discriminate;
    destruct (type (_def q)) eqn:Tq; rewrite Hcq in Hq; try discriminate;
    injection Hp as _ <-; injection Hq as _ <-;
    (split;
     [ intros Ho; unfold buildOperation; rewrite Ho;
       destruct (hd_error (inputs (_def p))), (hd_error (inputs (_def q))),
         (output (_def q)); reflexivity
     | intros Ht Hi; try discriminate Ht;
       unfold buildOperation; rewrite Hi;
       destruct (hd_error (inputs (_def q))), (output (_def p)),
         (output (_def q)); split; reflexivity ]).
Qed.

End OperationShape.

Section KeysOfTheDocument.

Context {ZodType JSONSchema : Type}.
Variable toJSONSchema : ZodType -> JSONSchema.

Local Abbreviation translate := (getPathsForProcedure toJSONSchema).
Local Abbreviation walk := (getPathsForRouterRecord toJSONSchema).
Local Abbreviation fragments := (emitted toJSONSchema).

Lemma append_eqb b k1 k2 :
  String.eqb (b ++ k1)%string (b ++ k2)%string = String.eqb k1 k2.
Proof.
  induction b as [|c b IH]; simpl; [reflexivity|].
  now rewrite Ascii.eqb_refl.
Qed.

Lemma append_append b1 b2 k :
  ((b1 ++ b2) ++ k)%string = (b1 ++ (b2 ++ k))%string.
Proof. induction b1 as [|c b1 IH]; simpl; [reflexivity | now rewrite IH]. Qed.

Lemma set_prefixKeys {V : Type} b (o : Obj.t V) k v :
  Obj.set (prefixKeys b o) (b ++ k)%string v = prefixKeys b (Obj.set o k v).
Proof.
  induction o as [|[k0 v0] o IH]; simpl; [reflexivity|].
  rewrite append_eqb. destruct (String.eqb k0 k); simpl; [reflexivity|].
  now rewrite IH.
Qed.

Lemma assign_prefixKeys {V : Type} b (t s : Obj.t V) :
  Obj.assign (prefixKeys b t) (prefixKeys b s) = prefixKeys b (Obj.assign t s).
Proof.
  revert t. induction s as [|[k v] s IH]; intros t; [reflexivity|].
  simpl prefixKeys. rewrite !ObjFacts.assign_cons.
  cbn [fst snd]. now rewrite set_prefixKeys, IH.
Qed.

Lemma fragments_prefix b1 b2 (l : list (string * AnyProcedure ZodType)) :
  fragments (b1 ++ b2)%string l = prefixKeys b1 (fragments b2 l).
Proof.
  induction l as [|[n p] l IH]; [reflexivity|].
  rewrite !emitted_cons, IH. unfold prefixKeys. rewrite map_app. f_equal.
  pose proof (translate_cases toJSONSchema (b1 ++ b2)%string n p) as H1.
  pose proof (translate_cases toJSONSchema b2 n p) as H2.
  destruct (type (_def p)); rewrite H1, H2; simpl; unfold route;
    now rewrite ?append_append.
Qed.

(** The base path is a prefix of the keys and nothing more: the document
    for the base path [b1 ++ b2] is the document for [b2] with [b1] put in
    front of every route, the operations being the same; in particular
    every document is the document for the empty base path with the base
    path in front of its routes. *)
Theorem base_path_only_prefixes_routes b1 b2 (r : RouterRecord ZodType) :
  walk (b1 ++ b2)%string r =
  match walk b2 r with
  | Return paths => Return (prefixKeys b1 paths)
  | Throw e => Throw e
  end.
Proof.
  rewrite !walk_spec. destruct (discriminable r); [|reflexivity].
  f_equal. rewrite fragments_prefix.
  exact (assign_prefixKeys b1 [] (fragments b2 (leaves r))).
Qed.

Lemma isKey_In ks k : isKey ks k = true <-> In k ks.
Proof.
  unfold isKey. rewrite existsb_exists. split.
  - intros (x & Hin & Heq). apply String.eqb_eq in Heq. now subst.
  - intros Hin. exists k. split; [assumption | apply String.eqb_refl].
Qed.

Lemma filter_filter {A : Type} (f g : A -> bool) (l : list A) :
  filter f (filter g l) = filter (fun x => f x && g x) l.
Proof.
  induction l as [|x l IH]; simpl; [reflexivity|].
  destruct (g x); simpl; rewrite ?andb_true_r, ?andb_false_r.
  - destruct (f x); now rewrite IH.
  - exact IH.
Qed.

(** The keys of [Object.assign(target, source)]: those of the target,
    then the new keys of the source where each stands first. *)
Lemma keys_assign {V : Type} (t s : Obj.t V) :
  Obj.keys (Obj.assign t s) =
  Obj.keys t ++
  filter (fun k => negb (isKey (Obj.keys t) k))
         (firstOccurrences (Obj.keys s)).
Proof.
  revert t. induction s as [|[k v] s IH]; intros t.
  - simpl. now rewrite app_nil_r.
  - rewrite ObjFacts.assign_cons, IH, ObjFacts.keys_set.
    simpl Obj.keys. simpl firstOccurrences. simpl filter.
    destruct (in_dec string_dec k (Obj.keys t)) as [Hin|Hnot].
    + rewrite (proj2 (isKey_In _ _) Hin). simpl. f_equal.
      rewrite filter_filter. apply filter_ext. intros x.
      destruct (isKey (Obj.keys t) x) eqn:Hx; simpl; [reflexivity|].
      destruct (String.eqb k x) eqn:E; [|reflexivity].
      apply String.eqb_eq in E. subst x.
      apply isKey_In in Hin. congruence.
    + assert (Hk : isKey (Obj.keys t) k = false).
      { destruct (isKey (Obj.keys t) k) eqn:E; [|reflexivity].
        apply isKey_In in E. contradiction. }
      rewrite Hk. simpl. rewrite <- app_assoc. simpl. do 2 f_equal.
      rewrite filter_filter. apply filter_ext. intros x.
      unfold isKey. rewrite existsb_app. simpl.
      rewrite orb_false_r, negb_orb, (String.eqb_sym x k). reflexivity.
Qed.

Lemma length_firstOccurrences ks :
  List.length (firstOccurrences ks) <= List.length ks.
Proof.
  induction ks as [|k ks IH]; simpl; [lia|].
  pose proof (filter_length_le (fun k' => negb (String.eqb k k'))
                (firstOccurrences ks)).
  lia.
Qed.

(** The routes of a returned document stand in the order in which they
    are first written: a route that several procedures write keeps the
    place of the first of them (and, by last write wins, the value of the
    last); so there are at most as many routes as queries and mutations. *)
Theorem routes_in_order_of_first_writing b (r : RouterRecord ZodType) paths :
  walk b r = Return paths ->
  Obj.keys paths = firstOccurrences (routes b r) /\
  List.length paths <= List.length (routes b r).
Proof.
  intros Hw. destruct (walk_returns toJSONSchema b r paths Hw) as [_ ->].
  assert (Hk : Obj.keys (Obj.assign [] (fragments b (leaves r))) =
               firstOccurrences (routes b r)).
  { rewrite keys_assign, keys_fragments_leaves. simpl.
    generalize (firstOccurrences (routes b r)). intros l.
    induction l as [|x l IH]; simpl; [reflexivity | now rewrite IH]. }
  split; [exact Hk|].
  transitivity (List.length (Obj.keys (Obj.assign [] (fragments b (leaves r))))).
  - unfold Obj.keys. now rewrite length_map.
  - rewrite Hk. apply length_firstOccurrences.
Qed.

End KeysOfTheDocument.

Section OperationIds.

Context {ZodType JSONSchema : Type}.
Variable toJSONSchema : ZodType -> JSONSchema.

Local Abbreviation walk := (getPathsForRouterRecord toJSONSchema).

Lemma operationAt_single b (r : RouterRecord ZodType) paths k item m operation :
  walk b r = Return paths ->
  Obj.get paths k = Some item ->
  Obj.get item m = Some operation ->
  item = [(m, operation)].
Proof.
  intros Hw Hk Hm.
  destruct (get_walk_In toJSONSchema b r paths k item Hw Hk)
    as (n & p & _ & Heq).
  pose proof (translate_cases toJSONSchema b n p) as Hc.
  destruct (type (_def p)); rewrite Hc in Heq; try discriminate;
    injection Heq as _ <-; cbn [Obj.get] in Hm;
    match type of Hm with
    | (if ?c then _ else _) = _ => destruct c eqn:E; [|discriminate]
    end;
    apply String.eqb_eq in E; subst m; now injection Hm as <-.
Qed.

(** No two operations of a returned document share an [operationId]:
    operations with the same id are one operation, under one route and
    one method. *)
Theorem operation_ids_are_unique b (r : RouterRecord ZodType) paths
  k m operation k' m' operation' :
  walk b r = Return paths ->
  operationAt paths k m = Some operation ->
  operationAt paths k' m' = Some operation' ->
  operationId operation = operationId operation' ->
  k = k' /\ m = m' /\ operation = operation'.
Proof.
  intros Hw Hop Hop' Hid.
  destruct (operationAt_origin toJSONSchema b r paths k m operation Hw Hop)
    as (n & p & _ & -> & _ & Hn & _).
  destruct (operationAt_origin toJSONSchema b r paths k' m' operation' Hw Hop')
    as (n' & p' & _ & -> & _ & Hn' & _).
  subst n n'. rewrite Hid in *.
  split; [reflexivity|].
  unfold operationAt in Hop, Hop'.
  destruct (Obj.get paths (route b (operationId operation'))) as [item|] eqn:Hg;
    [|discriminate].
  pose proof (operationAt_single b r paths _ item m operation Hw Hg Hop) as H1.
  pose proof (operationAt_single b r paths _ item m' operation' Hw Hg Hop') as H2.
  rewrite H1 in H2. now injection H2 as <- <-.
Qed.

End OperationIds.

(** * The further properties at work on the example trees *)

Section MoreWitnesses.

Import Example MoreExamples.

Local Abbreviation translate := (getPathsForProcedure toJSONSchema).
Local Abbreviation walk := (getPathsForRouterRecord toJSONSchema).

(** [{ users: { list } }] gives no paths object. *)
Lemma walk_returns_only_with_def_witness :
  discriminable grouped = false /\
  walk "/trpc" grouped <> Return [].
Proof.
  split; [reflexivity|].
  exact (walk_returns_only_with_def grouped eq_refl "/trpc" toJSONSchema []).
Defined.


(** [{ getUser, onMessage, createUser }] under "/api": two routes, in the
    order of the record. *)
Lemma flat_router_document_witness :
  NoDup (map fst users) /\
  exists doc,
    trpc2OpenApi toJSONSchema
      {| apiTitle := "Test API"; apiVersion := "1.0.0"; basePath := "/api";
         router := {| procedures := flat users |} |} = Return doc /\
    Obj.keys (paths doc) = ["/api/getUser"; "/api/createUser"] /\
    List.length (paths doc) = 2.
Proof.
  assert (Hnd : NoDup (map fst users))
    by (repeat constructor; simpl; intuition discriminate).
  split; [exact Hnd|].
  eexists. split; [reflexivity|].
  exact (proj2 (flat_router_document toJSONSchema "Test API" "1.0.0" "/api"
                  users _ Hnd eq_refl)).
Defined.

(** The one operation of [{ greeting }]. *)
Lemma only_the_success_response_witness :
  walk "/trpc" hello =
    Return [("/trpc/greeting",
             [("get", buildOperation toJSONSchema "get" "greeting" (_def greeting))])] /\
  (exists body,
     responses (buildOperation toJSONSchema "get" "greeting" (_def greeting)) =
     Some [("200", {| description := "Successful response"; content := body |})]).
Proof.
  split; [reflexivity|].
  exact (proj1 (only_the_success_response toJSONSchema "/trpc" hello _ eq_refl
                  "/trpc/greeting" "get" _ eq_refl)).
Defined.

(** [health] and [reset] declare no output, one is a query and one a
    mutation: the same responses. *)
Lemma input_and_output_are_independent_witness :
  exists operation operation',
    translate "/trpc" "health" health =
      [("/trpc/health", [("get", operation)])] /\
    translate "/trpc" "reset" reset =
      [("/trpc/reset", [("post", operation')])] /\
    responses operation = responses operation'.
Proof.
  eexists _, _. split; [reflexivity|]. split; [reflexivity|].
  exact (proj1 (input_and_output_are_independent toJSONSchema "/trpc"
                  "health" "reset" health reset "get" _ "post" _
                  eq_refl eq_refl) eq_refl).
Defined.

(** In [shadowed] the route "/status" is written first and last, "/reset"
    in between: "/status" stands first. *)
Lemma routes_in_order_of_first_writing_witness :
  routes "" shadowed = ["/status"; "/reset"; "/status"] /\
  exists paths,
    walk "" shadowed = Return paths /\
    Obj.keys paths = ["/status"; "/reset"].
Proof.
  split; [reflexivity|]. eexists. split; [reflexivity|].
  exact (proj1 (routes_in_order_of_first_writing toJSONSchema "" shadowed _
                  eq_refl)).
Defined.

(** The two operations of [{ health, createUser }] have different ids;
    looked up twice, the operation of "/api/health" is one operation. *)
Lemma operation_ids_are_unique_witness :
  walk "/api" admin =
    Return [("/api/health",
             [("get", buildOperation toJSONSchema "get" "health" (_def health))]);
            ("/api/createUser",
             [("post", buildOperation toJSONSchema "post" "createUser"
                         (_def createUser))])] /\
  ("/api/health" = "/api/health" /\ "get" = "get" /\
   buildOperation toJSONSchema "get" "health" (_def health) =
   buildOperation toJSONSchema "get" "health" (_def health)).
Proof.
  split; [reflexivity|].
  exact (operation_ids_are_unique toJSONSchema "/api" admin _
           "/api/health" "get" _ "/api/health" "get" _
           eq_refl eq_refl eq_refl eq_refl).
Defined.

End MoreWitnesses.
